(** * StorageService: the mock object store and analytics ledger

    A shallow embedding of [src/lib/types.ts] (the [StorageService] class of
    [lib/storage.ts] together with the interfaces of [lib/types.ts]) and the
    properties of the store stated over it.

    The browser's [localStorage] is the state the service keeps.  The
    service uses three disjoint families of keys:
    ['screen_recorder_videos'] (a JSON array of [VideoMetadata]),
    ['screen_recorder_analytics'] (a JSON object from video id to
    [VideoAnalytics]) and [`video_blob_${id}`] (one data URL per video).  The
    three families cannot collide (the blob keys start with another prefix,
    and two blob keys are equal only for equal ids), so the store is modelled
    as a record with one field per family.

    Three things of JavaScript that the service runs into are part of the
    model.  [JSON.stringify] writes a number that is not finite as [null],
    so a record read back from the store can differ from the record that
    was written.  The analytics object is a plain object: a lookup
    [analytics[videoId]] finds the members that every object inherits
    ([constructor], [toString], [__proto__] and the others) where the
    object has no entry of its own under that name, and a write that
    [incrementView] makes on [__proto__] lands on [Object.prototype], from
    where every object inherits it afterwards.  And the comparator
    that [cleanupOldVideos] sorts with is [NaN] on a [createdAt] that is
    not a date, in which case the order [Array.prototype.sort] leaves is
    up to the engine.

    The callers of the service follow: the view guard and the watch
    tracking of the watch page ([src/unnamed/part_001]) and the timer of the
    recorder ([src/unnamed/part_002]).  Of a component only the state and
    the refs that these handlers read and write are kept; a handler sees the
    state as the handler before it left it. *)

From Stdlib Require Import ZArith QArith Lia List Ascii String.
From stdpp Require Import base option strings list sorting gmap.

Local Open Scope Z_scope.

(** ** Data model ([lib/types.ts]) *)

(** The numbers of the analytics (percentages, durations, averages) are
    exact rationals here, finite numbers without rounding; the view counter,
    which only ever starts at 0 and is incremented, is an integer. *)
Abbreviation number := Q (only parsing).

(** The [duration] and the [size] of a record are carried around and
    stored, never computed with: beside the finite numbers they can be
    [NaN] or an infinity (the duration of a recording that the browser has
    not measured is [Infinity]), and [null] once they have been through
    JSON. *)
Inductive JsNumber : Type :=
  | Finite (q : Q)
  | NaN
  | Infinity
  | NegInfinity
  | Null.

(** [JSON.parse (JSON.stringify n)]: a number that is not finite is written
    as [null]. *)
Definition jsonNumber (n : JsNumber) : JsNumber :=
  match n with
  | Finite q => Finite q
  | _ => Null
  end.

Definition finite (n : JsNumber) : bool :=
  match n with
  | Finite _ => true
  | _ => false
  end.

Module VideoMetadata.
Record t : Type := mk {
  id : string;
  title : string;
  filename : string;
  duration : JsNumber;
  size : JsNumber;
  createdAt : string;
  shareUrl : string;
  thumbnailUrl : option string
}.

(** [JSON.parse (JSON.stringify v)]: the strings come back as they are,
    and so does a [thumbnailUrl] that is missing. *)
Definition parsed (v : t) : t :=
  mk (id v) (title v) (filename v) (jsonNumber (duration v)) (jsonNumber (size v))
     (createdAt v) (shareUrl v) (thumbnailUrl v).
End VideoMetadata.

Record CompletionDataPoint : Type := mkCompletionDataPoint {
  timestamp : string;
  watchPercentage : number;
  watchDuration : number
}.

Record VideoAnalytics : Type := mkVideoAnalytics {
  videoId : string;
  views : Z;
  completionData : list CompletionDataPoint;
  averageWatchPercentage : number;
  lastViewed : option string
}.

(** [Omit<VideoMetadata, 'id' | 'shareUrl'>], the argument of [uploadVideo]. *)
Module UploadMetadata.
Record t : Type := mk {
  title : string;
  filename : string;
  duration : JsNumber;
  size : JsNumber;
  createdAt : string;
  thumbnailUrl : option string
}.
End UploadMetadata.

(** ** The backing store *)

(** [videosItem] is the array whose JSON text the item holds, and
    [analyticsItem] the object; what a reader gets is what [JSON.parse]
    makes of the text ([getVideos] below). *)
Record Storage : Type := mkStorage {
  videosItem : option (list VideoMetadata.t);
  blobItems : gmap string string;
  analyticsItem : option (gmap string VideoAnalytics)
}.

(** The three shapes of [localStorage.setItem] the service performs. *)
Inductive Write : Type :=
  | SetVideos (videos : list VideoMetadata.t)
  | SetBlob (id : string) (base64 : string)
  | SetAnalytics (analytics : gmap string VideoAnalytics).

Definition applyWrite (wr : Write) (s : Storage) : Storage :=
  match wr with
  | SetVideos videos =>
      mkStorage (Some videos) (blobItems s) (analyticsItem s)
  | SetBlob id base64 =>
      mkStorage (videosItem s) (<[id := base64]> (blobItems s)) (analyticsItem s)
  | SetAnalytics analytics =>
      mkStorage (videosItem s) (blobItems s) (Some analytics)
  end.

Definition removeBlob (id : string) (s : Storage) : Storage :=
  mkStorage (videosItem s) (delete id (blobItems s)) (analyticsItem s).

Definition emptyStorage : Storage := mkStorage None ∅ None.

(** ** Members that every object inherits

    The names that [Object.prototype] gives to every object: the functions
    of the language, the four accessor helpers of the browsers, and
    [__proto__], which reads as the prototype itself.  Each of them is an
    object, hence truthy. *)
Definition inheritedMembers : list string :=
  ["constructor"; "hasOwnProperty"; "isPrototypeOf"; "propertyIsEnumerable";
   "toLocaleString"; "toString"; "valueOf"; "__proto__";
   "__defineGetter__"; "__defineSetter__"; "__lookupGetter__"; "__lookupSetter__"].

Definition inherited (key : string) : bool :=
  bool_decide (key ∈ inheritedMembers).

(** What [analytics[key]] evaluates to when it is truthy: the entry the
    object has under [key], or else a member it inherits under that name,
    or else, under the name [lastViewed], the string that a write on
    [__proto__] has left on [Object.prototype]. *)
Inductive Property : Type :=
  | Own (a : VideoAnalytics)
  | Inherited (name : string)
  | Stray (lastViewed : string).

(** The writes made on inherited members so far, oldest first, each with
    the name of the member and the [lastViewed] it was given.  A write on
    [__proto__] sets [views] (to [NaN], which no lookup takes for an entry)
    and [lastViewed] on [Object.prototype]. *)
Definition prototypeLastViewed (writes : list (string * string)) : option string :=
  foldl (λ value write, if String.eqb write.1 "__proto__" then Some write.2 else value)
        None writes.

Definition inheritedProperty (writes : list (string * string)) (key : string)
    : option Property :=
  if inherited key then Some (Inherited key)
  else if String.eqb key "lastViewed" then
    match prototypeLastViewed writes with
    | Some value => if String.eqb value "" then None else Some (Stray value)
    | None => None
    end
  else None.

Definition property (writes : list (string * string))
    (analytics : gmap string VideoAnalytics) (key : string) : option Property :=
  match analytics !! key with
  | Some a => Some (Own a)
  | None => inheritedProperty writes key
  end.

(** What the service prints on the console. *)
Inductive ConsoleMsg : Type :=
  | WarnQuotaExceeded
  | LogDeleting (n : nat)
  | LogKept (n : nat)
  | LogUploadedAfterCleanup
  | ErrorStillNoSpace.

(** The world a call runs in: the store, the console, two counters that
    only record what happened, the number of [setItem] calls made so far
    (the quota of the browser may answer differently from one call to the
    next) and the number of them that [localStorage] rejected, and the
    writes that were made on inherited members, each with the name of the
    member and the [lastViewed] it was given (they live as long as the
    page, not in the store). *)
Record World : Type := mkWorld {
  storage : Storage;
  console : list ConsoleMsg;
  setItemCalls : nat;
  rejected : nat;
  memberWrites : list (string * string)
}.

Definition freshWorld (s : Storage) : World := mkWorld s [] 0 0 [].

(** ** Effects: state and exceptions *)

(** [QuotaExceededError] is the [DOMException] of [localStorage.setItem];
    [StorageQuotaError] is the [Error] that [uploadVideo] makes, with the
    message 'Storage quota exceeded. Please delete some videos manually.';
    [TypeError] is what a method call on [undefined] raises, and an
    assignment to a property of a string in strict code. *)
Inductive Exn : Type :=
  | QuotaExceededError
  | StorageQuotaError
  | FileReaderError
  | TypeError.

Inductive Result (A : Type) : Type :=
  | Return (a : A)
  | Throw (e : Exn).
Arguments Return {A} a.
Arguments Throw {A} e.

Definition Eff (A : Type) : Type := World → Result A * World.

Definition ret {A} (a : A) : Eff A := λ w, (Return a, w).

Definition throw {A} (e : Exn) : Eff A := λ w, (Throw e, w).

Definition bind {A B} (m : Eff A) (k : A → Eff B) : Eff B :=
  λ w, match m w with
       | (Return a, w') => k a w'
       | (Throw e, w') => (Throw e, w')
       end.

Definition tryCatch {A} (m : Eff A) (handler : Exn → Eff A) : Eff A :=
  λ w, match m w with
       | (Return a, w') => (Return a, w')
       | (Throw e, w') => handler e w'
       end.

#[global] Instance Eff_ret : MRet Eff := @ret.
#[global] Instance Eff_bind : MBind Eff := λ A B k m, bind m k.

Fixpoint forEach {A} (l : list A) (f : A → Eff unit) : Eff unit :=
  match l with
  | [] => ret tt
  | x :: l' => f x;; forEach l' f
  end.

Definition logged (msg : ConsoleMsg) (w : World) : World :=
  mkWorld (storage w) (console w ++ [msg]) (setItemCalls w) (rejected w)
          (memberWrites w).

Definition consoleLog (msg : ConsoleMsg) : Eff unit :=
  λ w, (Return tt, logged msg w).

(** ** The host environment

    What the service takes from the browser: whether [localStorage] accepts
    a [setItem] (it throws a [QuotaExceededError] otherwise); the time value
    of a date string ([new Date(s).getTime()]), which is [NaN], here
    [None], for a string that is not a date; the order in which
    [Array.prototype.sort] leaves the video list when the comparator is
    [NaN] for some of its records, which the language leaves to the engine
    (every engine rearranges the array it is given); and
    [FileReader.readAsDataURL], which may fail. *)
Class Host : Type := mkHost {
  quota : nat → Storage → Write → bool;
  dateTime : string → option Z;
  sortUndated : list VideoMetadata.t → list VideoMetadata.t;
  sortUndated_perm : ∀ l, sortUndated l ≡ₚ l;
  Blob : Type;
  blobToBase64 : Blob → option string
}.

(** ** Sorting newest first

    [videos.sort((a, b) => new Date(b.createdAt).getTime()
                          - new Date(a.createdAt).getTime())].
    When every [createdAt] is a date the comparator is consistent, and the
    result is the one stable sort there is: [a] goes after [b] exactly when
    the comparator is positive.  [time] is [dateTime]. *)
Section Sorting.
Variable time : string → option Z.

(** The comparator; [None] is [NaN]. *)
Definition newestFirst (a b : VideoMetadata.t) : option Z :=
  match time (VideoMetadata.createdAt b), time (VideoMetadata.createdAt a) with
  | Some tb, Some ta => Some (tb - ta)
  | _, _ => None
  end.

(** A sort reads a comparator that is [NaN] as [+0]. *)
Definition positive (c : option Z) : bool :=
  match c with
  | Some z => 0 <? z
  | None => false
  end.

Fixpoint insertSorted (x : VideoMetadata.t) (l : list VideoMetadata.t)
    : list VideoMetadata.t :=
  match l with
  | [] => [x]
  | y :: l' => if positive (newestFirst x y) then y :: insertSorted x l' else x :: l
  end.

Definition insertionSort (l : list VideoMetadata.t) : list VideoMetadata.t :=
  foldr insertSorted [] l.

Definition dated (v : VideoMetadata.t) : bool :=
  bool_decide (is_Some (time (VideoMetadata.createdAt v))).

Lemma insertSorted_perm x l : insertSorted x l ≡ₚ x :: l.
Proof.
  induction l as [|y l IH]; simpl; [done|].
  destruct (positive (newestFirst x y)); [|done].
  rewrite IH. apply Permutation_swap.
Qed.

Lemma insertionSort_perm l : insertionSort l ≡ₚ l.
Proof.
  induction l as [|x l IH]; simpl; [done|].
  by rewrite insertSorted_perm, IH.
Qed.

End Sorting.

(** ** The service ([lib/storage.ts]) *)

Section StorageService.
Context `{Host}.

(** [localStorage.setItem]: the browser accepts the write or throws
    [QuotaExceededError] and leaves the store as it was. *)
Definition setItem (wr : Write) : Eff unit :=
  λ w, if quota (setItemCalls w) (storage w) wr
       then (Return tt,
             mkWorld (applyWrite wr (storage w)) (console w)
                     (S (setItemCalls w)) (rejected w) (memberWrites w))
       else (Throw QuotaExceededError,
             mkWorld (storage w) (console w)
                     (S (setItemCalls w)) (S (rejected w)) (memberWrites w)).

(** [localStorage.removeItem(`video_blob_${id}`)] never throws. *)
Definition removeItem (id : string) : Eff unit :=
  λ w, (Return tt,
        mkWorld (removeBlob id (storage w)) (console w) (setItemCalls w)
                (rejected w) (memberWrites w)).

(** [data ? JSON.parse(data) : []]. *)
Definition getVideos (s : Storage) : list VideoMetadata.t :=
  VideoMetadata.parsed <$> default [] (videosItem s).

Definition getVideo (id : string) (s : Storage) : option VideoMetadata.t :=
  List.find (λ v, String.eqb (VideoMetadata.id v) id) (getVideos s).

Definition getVideoBlob (id : string) (s : Storage) : option string :=
  blobItems s !! id.

(** The entries that the analytics object has of its own. *)
Definition getAllAnalytics (s : Storage) : gmap string VideoAnalytics :=
  default ∅ (analyticsItem s).

(** [analytics[videoId] || null]: the lookup reads the store and, for a
    name the object has no entry under, what the page has made of
    [Object.prototype]. *)
Definition getAnalytics (videoId : string) (w : World) : option Property :=
  property (memberWrites w) (getAllAnalytics (storage w)) videoId.

Definition zeroAnalytics (videoId : string) : VideoAnalytics :=
  mkVideoAnalytics videoId 0 [] 0%Q None.

(** [videoId] is an id that [generateId] made ([uploadVideo] is the one
    caller): the assignment gives the object an entry of its own under
    it. *)
Definition initializeAnalytics (videoId : string) : Eff unit :=
  λ w, let analytics := getAllAnalytics (storage w) in
       setItem (SetAnalytics (<[videoId := zeroAnalytics videoId]> analytics)) w.

(** [delete analytics[videoId]] removes an entry of the object and never a
    member it inherits. *)
Definition deleteAnalytics (videoId : string) : Eff unit :=
  λ w, let analytics := getAllAnalytics (storage w) in
       setItem (SetAnalytics (delete videoId analytics)) w.

(** [now] is [new Date().toISOString()] at the time of the call. *)
Definition viewed (now : string) (a : VideoAnalytics) : VideoAnalytics :=
  mkVideoAnalytics (videoId a) (views a + 1) (completionData a)
                   (averageWatchPercentage a) (Some now).

(** The two assignments of [incrementView] on an inherited member: they
    leave [views] ([undefined + 1], that is [NaN]) and [lastViewed] on the
    member itself, and nothing in the analytics object.  On a string they
    raise a [TypeError]: the body of a class is strict code. *)
Definition touched (member now : string) (w : World) : World :=
  mkWorld (storage w) (console w) (setItemCalls w) (rejected w)
          (memberWrites w ++ [(member, now)]).

Definition incrementView (now : string) (videoId : string) : Eff unit :=
  λ w, let analytics := getAllAnalytics (storage w) in
       match property (memberWrites w) analytics videoId with
       | Some (Own a) =>
           setItem (SetAnalytics (<[videoId := viewed now a]> analytics)) w
       | Some (Inherited member) =>
           setItem (SetAnalytics analytics) (touched member now w)
       | Some (Stray _) => throw TypeError w
       | None => ret tt w
       end.

Definition totalWatched (data : list CompletionDataPoint) : number :=
  fold_left (λ sum d, (sum + watchPercentage d)%Q) data 0%Q.

Definition completed (now : string) (watchPercentage watchDuration : number)
    (a : VideoAnalytics) : VideoAnalytics :=
  let data := completionData a
                ++ [mkCompletionDataPoint now watchPercentage watchDuration] in
  let total := totalWatched data in
  mkVideoAnalytics (videoId a) (views a) data
                   (total / inject_Z (Z.of_nat (length data)))%Q (lastViewed a).

(** Neither an inherited member nor a string has a [completionData]: the
    call of [push] on [undefined] raises a [TypeError] before anything is
    written. *)
Definition recordCompletion (now : string) (videoId : string)
    (watchPercentage watchDuration : number) : Eff unit :=
  λ w, let analytics := getAllAnalytics (storage w) in
       match property (memberWrites w) analytics videoId with
       | Some (Own a) =>
           setItem (SetAnalytics
                      (<[videoId := completed now watchPercentage watchDuration a]>
                         analytics)) w
       | Some (Inherited _) | Some (Stray _) => throw TypeError w
       | None => ret tt w
       end.

Definition deleteVideo (id : string) : Eff unit :=
  λ w, let videos :=
         List.filter (λ v, negb (String.eqb (VideoMetadata.id v) id))
                     (getVideos (storage w)) in
       (setItem (SetVideos videos);;
        removeItem id;;
        deleteAnalytics id) w.

(** [videos.sort(...)]: the stable sort, newest first, when every
    [createdAt] in the list is a date, and what the engine makes of it
    otherwise. *)
Definition sortVideos (l : list VideoMetadata.t) : list VideoMetadata.t :=
  if forallb (dated dateTime) l then insertionSort dateTime l else sortUndated l.

Definition cleanupOldVideos (keepCount : nat) : Eff unit :=
  λ w, let videos := getVideos (storage w) in
       if (length videos <=? keepCount)%nat then ret tt w
       else
         let sorted := sortVideos videos in
         let videosToDelete := drop keepCount sorted in
         let recentVideos := take keepCount sorted in
         (consoleLog (LogDeleting (length videosToDelete));;
          forEach videosToDelete (λ video,
            removeItem (VideoMetadata.id video);;
            deleteAnalytics (VideoMetadata.id video));;
          setItem (SetVideos recentVideos);;
          consoleLog (LogKept (length recentVideos))) w.

(** The three writes of [uploadVideo], which the source has once in the
    [try] block and once more in the retry. *)
Definition storeVideo (videoData : VideoMetadata.t) (base64 : string) : Eff unit :=
  λ w, let videos := getVideos (storage w) ++ [videoData] in
       (setItem (SetVideos videos);;
        setItem (SetBlob (VideoMetadata.id videoData) base64);;
        initializeAnalytics (VideoMetadata.id videoData)) w.

Definition makeVideoData (id : string) (metadata : UploadMetadata.t) : VideoMetadata.t :=
  VideoMetadata.mk id
    (UploadMetadata.title metadata) (UploadMetadata.filename metadata)
    (UploadMetadata.duration metadata) (UploadMetadata.size metadata)
    (UploadMetadata.createdAt metadata)
    ("/watch/" +:+ id)
    (UploadMetadata.thumbnailUrl metadata).

(** [id] is the result of [generateId()]: the time of the call, a dash and
    what [Math.random] gave; nothing keeps it apart from the ids already
    stored. *)
Definition uploadVideo (id : string) (file : Blob) (metadata : UploadMetadata.t)
    : Eff VideoMetadata.t :=
  match blobToBase64 file with
  | None => throw FileReaderError
  | Some base64 =>
      let videoData := makeVideoData id metadata in
      tryCatch
        (storeVideo videoData base64;; mret videoData)
        (λ error,
           match error with
           | QuotaExceededError =>
               consoleLog WarnQuotaExceeded;;
               cleanupOldVideos 3;;
               tryCatch
                 (storeVideo videoData base64;;
                  consoleLog LogUploadedAfterCleanup;;
                  mret videoData)
                 (λ retryError,
                    consoleLog ErrorStillNoSpace;;
                    throw StorageQuotaError)
           | _ => throw error
           end)
  end.

End StorageService.

(** ** Notions the properties are stated with *)

Section Notions.
Context `{Host}.

(** On an entry of the analytics object [incrementView] and
    [recordCompletion] have one shape: they rewrite the entry, or do
    nothing at all when there is none. *)
Definition updateAnalytics (f : VideoAnalytics → VideoAnalytics) (videoId : string)
    : Eff unit :=
  λ w, match getAllAnalytics (storage w) !! videoId with
       | Some a =>
           setItem (SetAnalytics (<[videoId := f a]> (getAllAnalytics (storage w)))) w
       | None => ret tt w
       end.



(** The four ways the three writes of [storeVideo] can end. *)
Inductive StoreVideoOutcome (videoData : VideoMetadata.t) (base64 : string)
    (s : Storage) : Result unit → Storage → Prop :=
  | ListRejected :
      StoreVideoOutcome videoData base64 s (Throw QuotaExceededError) s
  | BlobRejected :
      StoreVideoOutcome videoData base64 s (Throw QuotaExceededError)
        (applyWrite (SetVideos (getVideos s ++ [videoData])) s)
  | AnalyticsRejected :
      StoreVideoOutcome videoData base64 s (Throw QuotaExceededError)
        (applyWrite (SetBlob (VideoMetadata.id videoData) base64)
           (applyWrite (SetVideos (getVideos s ++ [videoData])) s))
  | Stored :
      StoreVideoOutcome videoData base64 s (Return tt)
        (applyWrite (SetAnalytics (<[VideoMetadata.id videoData :=
                                       zeroAnalytics (VideoMetadata.id videoData)]>
                                     (getAllAnalytics s)))
           (applyWrite (SetBlob (VideoMetadata.id videoData) base64)
              (applyWrite (SetVideos (getVideos s ++ [videoData])) s))).


(** What is left of a map once the entries of [ids] are deleted from it. *)
Definition deleteIds {V} (ids : list string) (m : gmap string V) : gmap string V :=
  foldl (λ m i, delete i m) m ids.

(** A computation in which a rejected [setItem] ends the run: it returns
    without any rejection, or throws [QuotaExceededError] at its one
    rejected write. *)
Definition stopsAtRejection {A} (m : Eff A) : Prop :=
  ∀ w r w', m w = (r, w') →
    ((∃ a, r = Return a) ∧ rejected w' = rejected w)
    ∨ (r = Throw QuotaExceededError ∧ rejected w' = S (rejected w)).

(** A computation that makes no write on an inherited member. *)
Definition leavesMembers {A} (m : Eff A) : Prop :=
  ∀ w r w', m w = (r, w') → memberWrites w' = memberWrites w.

(** The two errors that tell a caller that the store is out of space: the
    one [localStorage] raises and the one [uploadVideo] makes. *)
Definition capacityError (e : Exn) : bool :=
  match e with
  | QuotaExceededError | StorageQuotaError => true
  | _ => false
  end.

(** No blob and no analytics entry is an orphan: each is kept under the id
    of a record of the list. *)
Definition noOrphans (s : Storage) : Prop :=
  (∀ i, is_Some (getVideoBlob i s) → i ∈ VideoMetadata.id <$> getVideos s)
  ∧ (∀ i, is_Some (getAllAnalytics s !! i) → i ∈ VideoMetadata.id <$> getVideos s).

(** What a failing upload of [videoData] can have made of the store [s]:
    [s'] lists no record that [s] did not list but [videoData], as read
    back; it holds no blob that [s] did not hold but the payload under the
    id of [videoData]; it has no analytics entry that [s] did not have; and
    it has no orphan blob or analytics entry if [s] had none. *)
Definition addsOnly (videoData : VideoMetadata.t) (base64 : string)
    (s s' : Storage) : Prop :=
  (∀ v, v ∈ getVideos s' → v ∈ getVideos s ∨ v = VideoMetadata.parsed videoData)
  ∧ (∀ i b, getVideoBlob i s' = Some b →
       getVideoBlob i s = Some b ∨ (i = VideoMetadata.id videoData ∧ b = base64))
  ∧ getAllAnalytics s' ⊆ getAllAnalytics s
  ∧ (noOrphans s → noOrphans s').

(** A record whose [duration] and [size] are finite numbers. *)
Definition finiteNumbers (v : VideoMetadata.t) : Prop :=
  finite (VideoMetadata.duration v) = true ∧ finite (VideoMetadata.size v) = true.

End Notions.

(** ** Concrete hosts

    Used to run the service on explicit inputs. *)

(** [new Date(s).getTime()] on the strings that [toISOString] produces for
    the years 0000 to 9999, [YYYY-MM-DDTHH:mm:ss.sssZ]: milliseconds since
    the epoch.  The hosts below read no other string as a date. *)
Definition isDigit (c : ascii) : bool :=
  (48 <=? nat_of_ascii c)%nat && (nat_of_ascii c <=? 57)%nat.

Definition isoShape (s : string) : bool :=
  match list_ascii_of_string s with
  | [y1; y2; y3; y4; d1; m1; m2; d2; a1; a2; t;
     h1; h2; c1; i1; i2; c2; s1; s2; p; f1; f2; f3; z] =>
      forallb isDigit [y1; y2; y3; y4; m1; m2; a1; a2; h1; h2; i1; i2; s1; s2; f1; f2; f3]
      && Ascii.eqb d1 "-" && Ascii.eqb d2 "-" && Ascii.eqb t "T"
      && Ascii.eqb c1 ":" && Ascii.eqb c2 ":" && Ascii.eqb p "." && Ascii.eqb z "Z"
  | _ => false
  end.

Definition digitsAt (s : string) (pos len : nat) : Z :=
  fold_left (λ acc c, 10 * acc + (Z.of_nat (Ascii.nat_of_ascii c) - 48))
            (String.list_ascii_of_string (String.substring pos len s)) 0.

Definition daysInMonth (y m : Z) : Z :=
  if m =? 2 then
    if ((y mod 4 =? 0) && negb (y mod 100 =? 0)) || (y mod 400 =? 0) then 29 else 28
  else if (m =? 4) || (m =? 6) || (m =? 9) || (m =? 11) then 30
  else 31.

Definition daysFromCivil (y m d : Z) : Z :=
  let y' := if m <=? 2 then y - 1 else y in
  let era := y' / 400 in
  let yoe := y' - era * 400 in
  let doy := (153 * (if 2 <? m then m - 3 else m + 9) + 2) / 5 + d - 1 in
  let doe := yoe * 365 + yoe / 4 - yoe / 100 + doy in
  era * 146097 + doe - 719468.

Definition isoDateTime (s : string) : option Z :=
  let y := digitsAt s 0 4 in
  let m := digitsAt s 5 2 in
  let d := digitsAt s 8 2 in
  let hh := digitsAt s 11 2 in
  let mm := digitsAt s 14 2 in
  let ss := digitsAt s 17 2 in
  if isoShape s
     && (1 <=? m) && (m <=? 12) && (1 <=? d) && (d <=? daysInMonth y m)
     && (hh <=? 23) && (mm <=? 59) && (ss <=? 59)
  then Some (daysFromCivil y m d * 86400000
             + hh * 3600000 + mm * 60000 + ss * 1000 + digitsAt s 20 3)
  else None.

(** A browser that decides on each [setItem] by [accepts]; a blob is given
    by its data URL, and a list with a [createdAt] that is no date is put
    in the order a sort gives that reads [NaN] as [+0]. *)
Definition browser (accepts : nat → Storage → Write → bool) : Host :=
  mkHost accepts isoDateTime (insertionSort isoDateTime)
         (insertionSort_perm isoDateTime) string Some.

(** A browser whose [localStorage] rejects exactly the [setItem] calls whose
    number is in [rejected]. *)
Definition scheduledHost (rejected : list nat) : Host :=
  browser (λ n _ _, negb (bool_decide (n ∈ rejected))).

(** A browser with a size quota: a [setItem] is accepted when the text the
    store holds afterwards (the characters of the data URLs and of the
    strings of the records, one unit for each completion point) fits in
    [capacity]. *)
Definition metadataChars (v : VideoMetadata.t) : nat :=
  String.length (VideoMetadata.id v) + String.length (VideoMetadata.title v)
  + String.length (VideoMetadata.filename v)
  + String.length (VideoMetadata.createdAt v)
  + String.length (VideoMetadata.shareUrl v).

Definition analyticsChars (a : VideoAnalytics) : nat :=
  String.length (videoId a) + length (completionData a).

Definition usage (s : Storage) : nat :=
  foldr (λ v n, metadataChars v + n)%nat 0%nat (default [] (videosItem s))
  + map_fold (λ _ b n, String.length b + n)%nat 0%nat (blobItems s)
  + map_fold (λ _ a n, analyticsChars a + n)%nat 0%nat (default ∅ (analyticsItem s)).

Definition sizedHost (capacity : nat) : Host :=
  browser (λ _ s wr, (usage (applyWrite wr s) <=? capacity)%nat).


(** ** Scenarios

    Five recordings, made on five consecutive days, each uploaded under the
    id [generateId] could have given it that day. *)
Definition nthId (n : nat) : string :=
  match n with
  | 1 => "1709287200000-k3x9q2m1z"
  | 2 => "1709373600000-p7d2w8c4a"
  | 3 => "1709460000000-h5t1r6y0b"
  | 4 => "1709546400000-m9f4j2s7e"
  | _ => "1709632800000-u3n8v1g6d"
  end%nat.

Definition digit (n : nat) : string :=
  String (ascii_of_nat (48 + n)) EmptyString.

Definition recording (n : nat) : UploadMetadata.t :=
  UploadMetadata.mk ("Recording " +:+ digit n) ("recording-" +:+ digit n +:+ ".webm")
                    (Finite 12) (Finite 2048)
                    ("2024-03-0" +:+ digit n +:+ "T10:00:00.000Z") None.

(** The first recording once more, trimmed. *)
Definition trimmed : UploadMetadata.t :=
  UploadMetadata.mk "Recording 1 (trimmed)" "recording-1-trimmed.webm"
                    (Finite 8) (Finite 1024) "2024-03-01T10:00:00.000Z" None.

(** A recording whose length the browser could not tell. *)
Definition unmeasured (n : nat) : UploadMetadata.t :=
  UploadMetadata.mk ("Recording " +:+ digit n) ("recording-" +:+ digit n +:+ ".webm")
                    Infinity (Finite 2048)
                    ("2024-03-0" +:+ digit n +:+ "T10:00:00.000Z") None.

(** A recording whose [createdAt] is not a date. *)
Definition undated (n : nat) : UploadMetadata.t :=
  UploadMetadata.mk ("Recording " +:+ digit n) ("recording-" +:+ digit n +:+ ".webm")
                    (Finite 12) (Finite 2048) "yesterday" None.

(** A data URL with [n] characters of payload. *)
Fixpoint dataUrl (n : nat) : string :=
  match n with
  | O => "data:video/webm;base64,"
  | S n' => dataUrl n' +:+ "A"
  end.

(** Calls made one after the other, each on the world the one before left,
    whether it returned or threw. *)
Fixpoint runAll {A} (calls : list (Eff A)) (w : World) : list (Result A) * World :=
  match calls with
  | [] => ([], w)
  | call :: calls' =>
      let '(r, w1) := call w in
      let '(rs, w') := runAll calls' w1 in
      (r :: rs, w')
  end.

Definition returned {A} (r : Result A) : bool :=
  match r with Return _ => true | Throw _ => false end.

(** A browser that never rejects a write. *)
Definition unlimitedHost : Host := scheduledHost [].

Definition unlimitedUpload (n : nat) : Eff VideoMetadata.t :=
  @uploadVideo unlimitedHost (nthId n) (dataUrl 4) (recording n).

Definition twoStored : World :=
  (runAll [unlimitedUpload 1; unlimitedUpload 2] (freshWorld emptyStorage)).2.

(** The store of the two recordings after a view was counted on
    [__proto__]. *)
Definition prototypeViewed : World :=
  (@incrementView unlimitedHost "2024-03-03T12:00:00.000Z" "__proto__" twoStored).2.

(** A quota of 1200 characters, and four recordings of 100 characters of
    payload stored one after the other from the empty store: none of the
    four uploads meets the quota. *)
Definition sizedUpload (n chars : nat) : Eff VideoMetadata.t :=
  @uploadVideo (sizedHost 1200) (nthId n) (dataUrl chars) (recording n).

Definition fourStored : World :=
  (runAll [sizedUpload 1 100; sizedUpload 2 100; sizedUpload 3 100; sizedUpload 4 100]
          (freshWorld emptyStorage)).2.

(** Five uploads from the empty store, each of which has its first write
    rejected (the [setItem] calls 0, 4, 8, 12 and 16) and returns after the
    cleanup. *)
Definition pressuredHost : Host := scheduledHost [0; 4; 8; 12; 16]%nat.

Definition pressuredUpload (n : nat) : Eff VideoMetadata.t :=
  @uploadVideo pressuredHost (nthId n) (dataUrl 4) (recording n).


Definition fivePressured : list (Result VideoMetadata.t) * World :=
  runAll [pressuredUpload 1; pressuredUpload 2; pressuredUpload 3;
          pressuredUpload 4; pressuredUpload 5]
         (freshWorld emptyStorage).

(** Four uploads from the empty store, each under pressure again: the
    first has its blob write rejected (the [setItem] call 1), so that its
    retry lists the record a second time; the three others have their list
    write rejected (the calls 5, 9 and 13). *)
Definition twiceListedHost : Host := scheduledHost [1; 5; 9; 13]%nat.

Definition twiceListedUpload (n : nat) : Eff VideoMetadata.t :=
  @uploadVideo twiceListedHost (nthId n) (dataUrl 4) (recording n).

Definition threeTwiceListed : list (Result VideoMetadata.t) * World :=
  runAll [twiceListedUpload 1; twiceListedUpload 2; twiceListedUpload 3]
         (freshWorld emptyStorage).

(** Two recordings are stored; the browser rejects the list write of both
    attempts of a third upload.  The call fails and the store is as it
    was. *)
Definition twiceRejectedHost : Host := scheduledHost [6; 7]%nat.

(** Two recordings are stored; the browser rejects the blob write of the
    first attempt of a third upload and accepts every other write. *)
Definition blobRejectedHost : Host := scheduledHost [7]%nat.

(** Four recordings are stored; of a fifth upload the browser rejects the
    list write (the [setItem] call 12) and then the first write of the
    cleanup (the call 13). *)
Definition cleanupRejectedHost : Host := scheduledHost [12; 13]%nat.

(** Four recordings are stored, the second of them with a [createdAt] that
    is not a date; of a fifth upload the browser rejects the list write
    (the [setItem] call 12) and nothing else. *)
Definition undatedStored : World :=
  (runAll [unlimitedUpload 1;
           @uploadVideo unlimitedHost (nthId 2) (dataUrl 4) (undated 2);
           unlimitedUpload 3; unlimitedUpload 4]
          (freshWorld emptyStorage)).2.

Definition listRejectedHost : Host := scheduledHost [12]%nat.

(** ** The claims the code does not meet, as the specification words them *)

(** "If [createVideo] ultimately fails with [CapacityExceeded], the video
    list, the blob entries and the analytics map are all unchanged." *)
Definition noPartialWrite `{Host} (id : string) (file : Blob)
    (metadata : UploadMetadata.t) (w : World) : Prop :=
  ∀ w', uploadVideo id file metadata w = (Throw StorageQuotaError, w') →
    getVideos (storage w') = getVideos (storage w)
    ∧ blobItems (storage w') = blobItems (storage w)
    ∧ getAllAnalytics (storage w') = getAllAnalytics (storage w).




(** "After a successful [createVideo(p, m)] returning record [r],
    [getVideo(r.id)] returns a record equal to [r], and [getBlob(r.id)]
    returns the stored payload." *)
Definition roundTrips `{Host} (id : string) (file : Blob)
    (metadata : UploadMetadata.t) (w : World) : Prop :=
  ∀ videoData w', uploadVideo id file metadata w = (Return videoData, w') →
    getVideo (VideoMetadata.id videoData) (storage w') = Some videoData
    ∧ getVideoBlob (VideoMetadata.id videoData) (storage w') = blobToBase64 file.




(** "[CapacityExceeded] is raised only from [createVideo]": no other
    operation ends in an error that reports that the store is out of
    space. *)
Definition capacityErrorOnlyFromUpload `{Host} : Prop :=
  (∀ id w e w', deleteVideo id w = (Throw e, w') → capacityError e = false)
  ∧ (∀ now videoId w e w',
       incrementView now videoId w = (Throw e, w') → capacityError e = false)
  ∧ (∀ now videoId (p d : Q) w e w',
       recordCompletion now videoId p d w = (Throw e, w') → capacityError e = false).

(** "and only after the eviction-and-retry sequence has been attempted and
    failed": when [createVideo] ends in such an error, a first attempt was
    rejected, the cleanup has run and a second attempt was rejected. *)
Definition capacityErrorOnlyAfterRetry `{Host} : Prop :=
  ∀ id (file : Blob) metadata w e w',
    uploadVideo id file metadata w = (Throw e, w') →
    capacityError e = true →
    ∃ base64 w1 w2 w3,
      blobToBase64 file = Some base64
      ∧ storeVideo (makeVideoData id metadata) base64 w = (Throw QuotaExceededError, w1)
      ∧ cleanupOldVideos 3 (logged WarnQuotaExceeded w1) = (Return tt, w2)
      ∧ storeVideo (makeVideoData id metadata) base64 w2
        = (Throw QuotaExceededError, w3).

(** ** The arithmetic mean, as the specification words it

    [mean [p1; ...; pn] = (p1 + ... + pn) / n]. *)
Definition sumQ (ps : list Q) : Q := foldr Qplus 0%Q ps.

Definition mean (ps : list Q) : Q := (sumQ ps / inject_Z (Z.of_nat (length ps)))%Q.

(** ** Invariants of the store *)

Section Invariants.
Context `{Host}.

Definition storedIds (s : Storage) : list string :=
  VideoMetadata.id <$> getVideos s.

(** The three collections agree: no id is listed twice, and the ids with a
    blob and the ids with an analytics entry are the listed ids. *)
Definition consistent (s : Storage) : Prop :=
  NoDup (storedIds s)
  ∧ dom (blobItems s) = (list_to_set (storedIds s) : gset string)
  ∧ dom (getAllAnalytics s) = (list_to_set (storedIds s) : gset string).

(** An analytics record that is filed under its own id, has a view count
    that is not negative, and an average that is 0 without completion
    points and the mean of their percentages otherwise. *)
Definition averageOk (a : VideoAnalytics) : Prop :=
  match completionData a with
  | [] => (averageWatchPercentage a == 0)%Q
  | _ => (averageWatchPercentage a
          == mean (map watchPercentage (completionData a)))%Q
  end.

Definition entryOk (k : string) (a : VideoAnalytics) : Prop :=
  videoId a = k ∧ 0 ≤ views a ∧ averageOk a.

Definition analyticsOk (s : Storage) : Prop :=
  map_Forall entryOk (getAllAnalytics s).


End Invariants.

(** ** The callers of the service *)

(** *** The watch page ([app/watch/[id]/page.tsx])

    The state of the page and its three refs.  A reading of the video
    element gives [currentTime] and [duration]; the duration is taken to be
    a number other than 0. *)
Module WatchPage.
Record t : Type := mk {
  video : option VideoMetadata.t;
  analytics : option Property;
  videoBlob : option string;
  loading : bool;
  viewCountedRef : bool;
  watchStartTimeRef : Z;
  maxWatchPercentageRef : number
}.

Definition initial : t := mk None None None true false 0 0%Q.
End WatchPage.

(** *** The recorder ([components/ScreenRecorder.tsx])

    The part of the state that the timer uses.  The media recorder and the
    stream are set together with [isRecording] and dropped together with
    it; [intervalRef] holds the start time that the running interval
    computes the elapsed time from, if an interval is running. *)
Module Recorder.
Record t : Type := mk {
  isRecording : bool;
  isPaused : bool;
  startTime : option Z;
  pauseTime : option Z;
  effectiveStartTimeRef : option Z;
  pauseTimeRef : option Z;
  intervalRef : option Z;
  recordingDuration : Z
}.

Definition initial : t := mk false false None None None None None 0.

(** [startRecording], once the screen capture is granted; [now] is the
    [Date.now()] it reads. *)
Definition startRecording (now : Z) (r : t) : t :=
  mk true false (Some now) None (Some now) None (Some now) 0.

(** The callback of the interval. *)
Definition timerTick (now : Z) (r : t) : t :=
  match intervalRef r with
  | Some start =>
      mk (isRecording r) (isPaused r) (startTime r) (pauseTime r)
         (effectiveStartTimeRef r) (pauseTimeRef r) (intervalRef r)
         ((now - start) / 1000)
  | None => r
  end.

(** [pauseRecording]; [clock k] is what the [k]-th [Date.now()] of the call
    reads. *)
Definition pauseRecording (clock : nat → Z) (r : t) : t :=
  if isRecording r then
    if isPaused r then
      let reads := match pauseTimeRef r with Some _ => 1%nat | None => 2%nat end in
      let pausedDuration := clock 0%nat - default (clock 1%nat) (pauseTimeRef r) in
      let newStartTime :=
        default (clock reads) (effectiveStartTimeRef r) + pausedDuration in
      mk true false (Some newStartTime) None (Some newStartTime) None
         (Some newStartTime) (recordingDuration r)
    else
      let now := clock 0%nat in
      mk true true (startTime r) (Some now) (effectiveStartTimeRef r) (Some now)
         None (recordingDuration r)
  else r.

(** [stopRecording] stops the media recorder, which queues its [stop]
    event, and clears the refs. *)
Definition stopRecording (r : t) : t :=
  if isRecording r then mk false false None None None None None (recordingDuration r)
  else r.

(** The handler of the [stop] event: the duration in seconds that it hands
    to [onRecordingComplete]. *)
Definition onstop (clock : nat → Z) (r : t) : number :=
  let duration := clock 0%nat - default (clock 1%nat) (effectiveStartTimeRef r) in
  (inject_Z duration / 1000)%Q.

(** A pause at [pr.1] followed by the resume at [pr.2]. *)
Definition pauseAndResume (r : t) (pr : Z * Z) : t :=
  pauseRecording (λ _, pr.2) (pauseRecording (λ _, pr.1) r).

Definition pausedTime (prs : list (Z * Z)) : Z :=
  foldr (λ pr total, (pr.2 - pr.1) + total) 0 prs.
End Recorder.

Section WatchPageCode.
Context `{Host}.

(** [videoData && blob]: a blob that is stored and is not the empty
    string. *)
Definition truthy (blob : option string) : bool :=
  match blob with
  | Some b => negb (String.eqb b "")
  | None => false
  end.

(** [loadVideo]: the outcome, the page and the world it leaves.  [now] is
    the time [incrementView] reads. *)
Definition loadVideo (now videoId : string) (page : WatchPage.t) (w : World)
    : Result unit * WatchPage.t * World :=
  let videoData := getVideo videoId (storage w) in
  let videoAnalytics := getAnalytics videoId w in
  let blob := getVideoBlob videoId (storage w) in
  let notFound :=
    WatchPage.mk (WatchPage.video page) (WatchPage.analytics page)
      (WatchPage.videoBlob page) false (WatchPage.viewCountedRef page)
      (WatchPage.watchStartTimeRef page) (WatchPage.maxWatchPercentageRef page) in
  let found (loading viewCounted : bool) :=
    WatchPage.mk videoData videoAnalytics blob loading viewCounted
      (WatchPage.watchStartTimeRef page) (WatchPage.maxWatchPercentageRef page) in
  match videoData with
  | Some _ =>
      if truthy blob then
        if WatchPage.viewCountedRef page then (Return tt, found false true, w)
        else
          match incrementView now videoId w with
          | (Return _, w') => (Return tt, found false true, w')
          | (Throw e, w') => (Throw e, found (WatchPage.loading page) false, w')
          end
      else (Return tt, notFound, w)
  | None => (Return tt, notFound, w)
  end.

(** The runs of [loadVideo] of one page, one after the other. *)
Fixpoint loadVideoRuns (calls : list (string * string)) (page : WatchPage.t)
    (w : World) : WatchPage.t * World :=
  match calls with
  | [] => (page, w)
  | call :: calls' =>
      let '(_, page1, w1) := loadVideo call.1 call.2 page w in
      loadVideoRuns calls' page1 w1
  end.

Definition handleTimeUpdate (currentTime duration : number) (page : WatchPage.t)
    : WatchPage.t :=
  match WatchPage.video page with
  | Some _ =>
      let watchPercentage := (currentTime / duration * 100)%Q in
      if Qle_bool watchPercentage (WatchPage.maxWatchPercentageRef page) then page
      else
        WatchPage.mk (WatchPage.video page) (WatchPage.analytics page)
          (WatchPage.videoBlob page) (WatchPage.loading page)
          (WatchPage.viewCountedRef page) (WatchPage.watchStartTimeRef page)
          watchPercentage
  | None => page
  end.

Definition handlePlay (now : Z) (page : WatchPage.t) : WatchPage.t :=
  if WatchPage.watchStartTimeRef page =? 0 then
    WatchPage.mk (WatchPage.video page) (WatchPage.analytics page)
      (WatchPage.videoBlob page) (WatchPage.loading page)
      (WatchPage.viewCountedRef page) now (WatchPage.maxWatchPercentageRef page)
  else page.

(** [handleVideoEnd]; [now] is [Date.now()] and [nowIso] the time
    [recordCompletion] reads. *)
Definition handleVideoEnd (now : Z) (nowIso videoId : string) (page : WatchPage.t)
    : Eff unit :=
  match WatchPage.video page with
  | Some _ =>
      let watchDuration := now - WatchPage.watchStartTimeRef page in
      recordCompletion nowIso videoId (WatchPage.maxWatchPercentageRef page)
                       (inject_Z watchDuration / 1000)%Q
  | None => ret tt
  end.

(** What the video element reports while the page is open. *)
Inductive PlayerEvent : Type :=
  | TimeUpdate (currentTime duration : number)
  | Play (now : Z).

Definition onPlayerEvent (page : WatchPage.t) (e : PlayerEvent) : WatchPage.t :=
  match e with
  | TimeUpdate currentTime duration => handleTimeUpdate currentTime duration page
  | Play now => handlePlay now page
  end.

Definition watchPercentageOf (e : PlayerEvent) : option number :=
  match e with
  | TimeUpdate currentTime duration => Some (currentTime / duration * 100)%Q
  | Play _ => None
  end.

End WatchPageCode.

(** ** Scenarios of the callers *)

(** The watch page of the first recording, loaded once on the store of the
    two recordings. *)
Definition watching : WatchPage.t :=
  (@loadVideoRuns unlimitedHost [("2024-03-03T12:00:00.000Z", nthId 1)]
     WatchPage.initial twoStored).1.

Definition watched : World :=
  (@loadVideoRuns unlimitedHost [("2024-03-03T12:00:00.000Z", nthId 1)]
     WatchPage.initial twoStored).2.

(** A viewer plays, watches a quarter, seeks to three quarters, goes back to
    the middle and plays again. *)
Definition playback : list PlayerEvent :=
  [TimeUpdate 3 12; TimeUpdate 9 12; Play 1709467300000; TimeUpdate 6 12]%Q.

(** ** Properties *)

Section Properties.
Context `{Host}.

Implicit Types (w : World) (s : Storage) (id videoId now : string).

(** *** Stepping through the effects *)

Lemma setItem_accepted wr w :
  quota (setItemCalls w) (storage w) wr = true →
  setItem wr w =
    (Return tt, mkWorld (applyWrite wr (storage w)) (console w)
                        (S (setItemCalls w)) (rejected w) (memberWrites w)).
Proof. intros Hq. unfold setItem. by rewrite Hq. Qed.

Lemma setItem_rejected wr w :
  quota (setItemCalls w) (storage w) wr = false →
  setItem wr w =
    (Throw QuotaExceededError,
     mkWorld (storage w) (console w) (S (setItemCalls w)) (S (rejected w))
             (memberWrites w)).
Proof. intros Hq. unfold setItem. by rewrite Hq. Qed.

Lemma setItem_inv wr w r w' :
  setItem wr w = (r, w') →
  console w' = console w ∧ setItemCalls w' = S (setItemCalls w) ∧
  ((r = Return tt ∧ storage w' = applyWrite wr (storage w)
    ∧ quota (setItemCalls w) (storage w) wr = true)
   ∨ (r = Throw QuotaExceededError ∧ storage w' = storage w
      ∧ quota (setItemCalls w) (storage w) wr = false)).
Proof.
  unfold setItem. destruct (quota _ _ _) eqn:Hq; intros [= <- <-]; simpl; naive_solver.
Qed.

Lemma bind_inv {A B} (m : Eff A) (k : A → Eff B) w r w' :
  (m ≫= k) w = (r, w') →
  (∃ a w1, m w = (Return a, w1) ∧ k a w1 = (r, w'))
  ∨ (∃ e, m w = (Throw e, w') ∧ r = Throw e).
Proof.
  unfold mbind, Eff_bind, bind. destruct (m w) as [[a|e] w1]; intros Hk.
  - left. eauto.
  - right. injection Hk as <- <-. eauto.
Qed.

(** *** Records that have been through JSON *)

Lemma jsonNumber_idemp n : jsonNumber (jsonNumber n) = jsonNumber n.
Proof. by destruct n. Qed.

Lemma parsed_idemp v : VideoMetadata.parsed (VideoMetadata.parsed v) = VideoMetadata.parsed v.
Proof. unfold VideoMetadata.parsed. simpl. by rewrite !jsonNumber_idemp. Qed.

(** A record with finite numbers is read back as it was written. *)
Lemma parsed_finite v : finiteNumbers v → VideoMetadata.parsed v = v.
Proof.
  destruct v as [i t f d z c u th]. unfold finiteNumbers. simpl.
  intros [Hd Hz]. destruct d; try discriminate. by destruct z.
Qed.

Lemma parsed_fixed (l : list VideoMetadata.t) :
  Forall (λ v, VideoMetadata.parsed v = v) l → VideoMetadata.parsed <$> l = l.
Proof. induction 1 as [|v l Hv _ IH]; [done|]. by rewrite fmap_cons, Hv, IH. Qed.

(** Every record that is read from the store has been through JSON. *)
Lemma getVideos_fixed s : Forall (λ v, VideoMetadata.parsed v = v) (getVideos s).
Proof.
  unfold getVideos. apply Forall_fmap, Forall_forall. intros v _. simpl.
  apply parsed_idemp.
Qed.

Lemma getVideos_sublist_fixed s (l : list VideoMetadata.t) :
  (∀ v, v ∈ l → v ∈ getVideos s) → VideoMetadata.parsed <$> l = l.
Proof.
  intros Hl. apply parsed_fixed, Forall_forall. intros v Hv.
  pose proof (getVideos_fixed s) as Hs. rewrite Forall_forall in Hs. auto.
Qed.

(** *** Reading the store after a write *)

Lemma getVideos_applyWrite wr s :
  getVideos (applyWrite wr s)
  = match wr with
    | SetVideos videos => VideoMetadata.parsed <$> videos
    | _ => getVideos s
    end.
Proof. by destruct wr. Qed.

Lemma blobItems_applyWrite wr s :
  blobItems (applyWrite wr s)
  = match wr with
    | SetBlob id base64 => <[id := base64]> (blobItems s)
    | _ => blobItems s
    end.
Proof. by destruct wr. Qed.

Lemma getAllAnalytics_applyWrite wr s :
  getAllAnalytics (applyWrite wr s)
  = match wr with SetAnalytics analytics => analytics | _ => getAllAnalytics s end.
Proof. by destruct wr. Qed.

Lemma getVideos_removeBlob id s : getVideos (removeBlob id s) = getVideos s.
Proof. reflexivity. Qed.

Lemma blobItems_removeBlob id s :
  blobItems (removeBlob id s) = delete id (blobItems s).
Proof. reflexivity. Qed.

Lemma getAllAnalytics_removeBlob id s :
  getAllAnalytics (removeBlob id s) = getAllAnalytics s.
Proof. reflexivity. Qed.

Create Rewrite HintDb store.
#[local] Hint Rewrite getVideos_applyWrite blobItems_applyWrite getAllAnalytics_applyWrite
  getVideos_removeBlob blobItems_removeBlob getAllAnalytics_removeBlob : store.

(** The list that is read after the new record was appended to the list
    that was read before. *)
Lemma getVideos_appended s videoData :
  VideoMetadata.parsed <$> (getVideos s ++ [videoData])
  = getVideos s ++ [VideoMetadata.parsed videoData].
Proof.
  rewrite fmap_app. simpl. f_equal. apply parsed_fixed, getVideos_fixed.
Qed.

(** *** Lists of records *)

Lemma find_filter_same id (l : list VideoMetadata.t) :
  List.find (λ v, String.eqb (VideoMetadata.id v) id)
    (List.filter (λ v, negb (String.eqb (VideoMetadata.id v) id)) l) = None.
Proof.
  induction l as [|v l IH]; simpl; [done|].
  destruct (String.eqb (VideoMetadata.id v) id) eqn:E; simpl; [done|].
  by rewrite E.
Qed.

Lemma find_filter_other id1 id2 (l : list VideoMetadata.t) :
  id1 ≠ id2 →
  List.find (λ v, String.eqb (VideoMetadata.id v) id2)
    (List.filter (λ v, negb (String.eqb (VideoMetadata.id v) id1)) l)
  = List.find (λ v, String.eqb (VideoMetadata.id v) id2) l.
Proof.
  intros Hne. induction l as [|v l IH]; simpl; [done|].
  destruct (String.eqb (VideoMetadata.id v) id1) eqn:E1; simpl.
  - apply String.eqb_eq in E1.
    destruct (String.eqb (VideoMetadata.id v) id2) eqn:E2; [|done].
    apply String.eqb_eq in E2. congruence.
  - by rewrite IH.
Qed.

Lemma filter_absent id (l : list VideoMetadata.t) :
  List.find (λ v, String.eqb (VideoMetadata.id v) id) l = None →
  List.filter (λ v, negb (String.eqb (VideoMetadata.id v) id)) l = l.
Proof.
  induction l as [|v l IH]; simpl; [done|].
  destruct (String.eqb (VideoMetadata.id v) id) eqn:E; simpl; [done|].
  intros Hf. by rewrite IH.
Qed.

Lemma filter_fixed s (f : VideoMetadata.t → bool) :
  VideoMetadata.parsed <$> List.filter f (getVideos s) = List.filter f (getVideos s).
Proof.
  apply (getVideos_sublist_fixed s). intros v Hv.
  apply list_elem_of_In, filter_In in Hv as [Hv _]. by apply list_elem_of_In.
Qed.

(** *** Looking an id up in the analytics object *)

Lemma prototypeLastViewed_app writes member now :
  prototypeLastViewed (writes ++ [(member, now)])
  = if String.eqb member "__proto__" then Some now else prototypeLastViewed writes.
Proof. unfold prototypeLastViewed. by rewrite foldl_app. Qed.

(** A write on a member changes what is inherited under [lastViewed], when
    the member is [__proto__], and nothing else. *)
Lemma inheritedProperty_app writes member now key :
  member ≠ "__proto__" ∨ key ≠ "lastViewed" →
  inheritedProperty (writes ++ [(member, now)]) key = inheritedProperty writes key.
Proof.
  intros Hne. unfold inheritedProperty. destruct (inherited key); [done|].
  destruct (String.eqb key "lastViewed") eqn:Ek; [|done].
  apply String.eqb_eq in Ek. rewrite prototypeLastViewed_app.
  destruct (String.eqb member "__proto__") eqn:Em; [|done].
  apply String.eqb_eq in Em. by destruct Hne.
Qed.

Lemma inheritedProperty_inv writes key q :
  inheritedProperty writes key = Some q →
  (q = Inherited key ∧ inherited key = true)
  ∨ (∃ value, q = Stray value ∧ inherited key = false ∧ key = "lastViewed"
              ∧ prototypeLastViewed writes = Some value ∧ value ≠ "").
Proof.
  unfold inheritedProperty. destruct (inherited key) eqn:Hin.
  { intros [= <-]. by left. }
  destruct (String.eqb key "lastViewed") eqn:Ek; [|done].
  apply String.eqb_eq in Ek.
  destruct (prototypeLastViewed writes) as [value|]; [|done].
  destruct (String.eqb value "") eqn:Ev; [done|].
  apply String.eqb_neq in Ev. intros [= <-]. right. by exists value.
Qed.

Lemma inheritedProperty_member writes key :
  inherited key = true → inheritedProperty writes key = Some (Inherited key).
Proof. unfold inheritedProperty. by intros ->. Qed.

(** The four ways a lookup can go: an entry of the object, a member that
    every object inherits, the string left on the prototype, or nothing. *)
Lemma lookup_cases videoId w :
  (∃ a, getAllAnalytics (storage w) !! videoId = Some a)
  ∨ (getAllAnalytics (storage w) !! videoId = None ∧ inherited videoId = true)
  ∨ (getAllAnalytics (storage w) !! videoId = None
     ∧ ∃ value, inheritedProperty (memberWrites w) videoId = Some (Stray value))
  ∨ (getAllAnalytics (storage w) !! videoId = None
     ∧ inheritedProperty (memberWrites w) videoId = None).
Proof.
  destruct (getAllAnalytics (storage w) !! videoId) as [a|]; [left; by exists a|].
  right. destruct (inheritedProperty (memberWrites w) videoId) as [q|] eqn:Hin.
  - apply inheritedProperty_inv in Hin as Hq.
    destruct Hq as [[-> ?]|(value & -> & _)]; [by left|right; left].
    split; [done|]. by exists value.
  - by right; right.
Qed.

Lemma getAnalytics_own videoId w a :
  getAnalytics videoId w = Some (Own a)
  ↔ getAllAnalytics (storage w) !! videoId = Some a.
Proof.
  unfold getAnalytics, property.
  destruct (getAllAnalytics (storage w) !! videoId) as [a'|]; [naive_solver|].
  split; [|done]. intros Hin. apply inheritedProperty_inv in Hin.
  by destruct Hin as [[[=] _]|(? & [=] & _)].
Qed.

Lemma getAnalytics_absent videoId w :
  getAllAnalytics (storage w) !! videoId = None →
  getAnalytics videoId w = inheritedProperty (memberWrites w) videoId.
Proof. unfold getAnalytics, property. by intros ->. Qed.

Lemma getAnalytics_None videoId w :
  getAnalytics videoId w = None
  ↔ getAllAnalytics (storage w) !! videoId = None
    ∧ inheritedProperty (memberWrites w) videoId = None.
Proof.
  unfold getAnalytics, property.
  destruct (getAllAnalytics (storage w) !! videoId) as [a'|];
    [split; [done|by intros [? _]]|].
  split; [done|by intros [_ ?]].
Qed.

Lemma getAnalytics_inherited videoId w :
  getAllAnalytics (storage w) !! videoId = None → inherited videoId = true →
  getAnalytics videoId w = Some (Inherited videoId).
Proof.
  intros Ha Hin. rewrite getAnalytics_absent by done.
  by apply inheritedProperty_member.
Qed.

Lemma getAnalytics_inherited_inv videoId w member :
  getAnalytics videoId w = Some (Inherited member) →
  getAllAnalytics (storage w) !! videoId = None ∧ inherited videoId = true
  ∧ member = videoId.
Proof.
  unfold getAnalytics, property.
  destruct (getAllAnalytics (storage w) !! videoId) as [a|]; [done|].
  intros Hin. apply inheritedProperty_inv in Hin.
  by destruct Hin as [[[= ->] ?]|(? & [=] & _)].
Qed.

(** The lookup of an id depends on the entry the object has under it and
    on what is inherited under it, and on nothing else. *)
Lemma getAnalytics_same videoId w w' :
  getAllAnalytics (storage w') !! videoId = getAllAnalytics (storage w) !! videoId →
  inheritedProperty (memberWrites w') videoId
  = inheritedProperty (memberWrites w) videoId →
  getAnalytics videoId w' = getAnalytics videoId w.
Proof. unfold getAnalytics, property. by intros -> ->. Qed.

(** *** Writes on inherited members *)




Lemma leaves_setItem wr : leavesMembers (setItem wr).
Proof.
  intros w r w'. unfold setItem. by destruct (quota _ _ _); intros [= <- <-].
Qed.

Lemma leaves_removeItem id : leavesMembers (removeItem id).
Proof. by intros w r w' [= <- <-]. Qed.

Lemma leaves_bind {A B} (m : Eff A) (k : A → Eff B) :
  leavesMembers m → (∀ a, leavesMembers (k a)) → leavesMembers (m ≫= k).
Proof.
  intros Hm Hk w r w' Hrun.
  apply bind_inv in Hrun as [(a & w1 & H1 & Hrun)|(e & H1 & ->)].
  - rewrite (Hk _ _ _ _ Hrun). by eapply Hm.
  - by eapply Hm.
Qed.



Lemma leaves_deleteAnalytics videoId : leavesMembers (deleteAnalytics videoId).
Proof. intros w. apply leaves_setItem. Qed.

Lemma leaves_initializeAnalytics videoId : leavesMembers (initializeAnalytics videoId).
Proof. intros w. apply leaves_setItem. Qed.

Lemma leaves_deleteVideo id : leavesMembers (deleteVideo id).
Proof.
  intros w. unfold deleteVideo. cbv zeta.
  apply leaves_bind; [apply leaves_setItem|intros _].
  apply leaves_bind; [apply leaves_removeItem|intros _].
  apply leaves_deleteAnalytics.
Qed.

Lemma leaves_storeVideo videoData base64 : leavesMembers (storeVideo videoData base64).
Proof.
  intros w. unfold storeVideo. cbv zeta.
  apply leaves_bind; [apply leaves_setItem|intros _].
  apply leaves_bind; [apply leaves_setItem|intros _].
  apply leaves_initializeAnalytics.
Qed.



(** *** deleteVideo *)

(** The three ways a [deleteVideo] can end: the list write is rejected, the
    analytics write is rejected, or both are accepted. *)
Lemma deleteVideo_inv id w r w' :
  deleteVideo id w = (r, w') →
  let kept := List.filter (λ v, negb (String.eqb (VideoMetadata.id v) id))
                          (getVideos (storage w)) in
  (r = Throw QuotaExceededError ∧ storage w' = storage w)
  ∨ (r = Throw QuotaExceededError
     ∧ storage w' = removeBlob id (applyWrite (SetVideos kept) (storage w)))
  ∨ (r = Return tt
     ∧ storage w' =
         applyWrite (SetAnalytics (delete id (getAllAnalytics (storage w))))
           (removeBlob id (applyWrite (SetVideos kept) (storage w)))).
Proof.
  intros Hrun kept. unfold deleteVideo in Hrun. fold kept in Hrun.
  apply bind_inv in Hrun as [(? & w1 & H1 & Hrun)|(e & H1 & ->)];
    apply setItem_inv in H1 as (_ & _ & [(? & Hs1 & _)|(? & Hs1 & _)]);
    simplify_eq; [|by left].
  apply bind_inv in Hrun as [(? & w2 & H2 & Hrun)|(e & H2 & ->)];
    [|discriminate H2].
  injection H2 as H2; subst w2. unfold deleteAnalytics in Hrun.
  apply setItem_inv in Hrun as (_ & _ & [(-> & Hs3 & _)|(-> & Hs3 & _)]);
    simpl in Hs3; rewrite Hs1 in Hs3; [right; right | right; left]; done.
Qed.

(** *** incrementView and recordCompletion *)

(** On an id under which nothing is inherited, and on every id the object
    has an entry for, the two calls rewrite the entry. *)
Lemma incrementView_update now videoId w :
  is_Some (getAllAnalytics (storage w) !! videoId)
  ∨ inheritedProperty (memberWrites w) videoId = None →
  incrementView now videoId w = updateAnalytics (viewed now) videoId w.
Proof.
  unfold incrementView, updateAnalytics, property.
  destruct (getAllAnalytics (storage w) !! videoId) as [a|]; [done|].
  intros [[? [=]]| ->]. done.
Qed.

Lemma recordCompletion_update now videoId p d w :
  is_Some (getAllAnalytics (storage w) !! videoId)
  ∨ inheritedProperty (memberWrites w) videoId = None →
  recordCompletion now videoId p d w = updateAnalytics (completed now p d) videoId w.
Proof.
  unfold recordCompletion, updateAnalytics, property.
  destruct (getAllAnalytics (storage w) !! videoId) as [a|]; [done|].
  intros [[? [=]]| ->]. done.
Qed.

(** On an inherited member that no entry hides, [incrementView] writes on
    the member and puts the analytics object back as it was; on the string
    left on the prototype it raises a [TypeError]; [recordCompletion]
    raises a [TypeError] on both. *)
Lemma incrementView_inherited now videoId w :
  getAllAnalytics (storage w) !! videoId = None → inherited videoId = true →
  incrementView now videoId w
  = setItem (SetAnalytics (getAllAnalytics (storage w))) (touched videoId now w).
Proof.
  unfold incrementView, property. intros -> Hin.
  by rewrite inheritedProperty_member.
Qed.

Lemma incrementView_stray now videoId w value :
  getAllAnalytics (storage w) !! videoId = None →
  inheritedProperty (memberWrites w) videoId = Some (Stray value) →
  incrementView now videoId w = (Throw TypeError, w).
Proof. unfold incrementView, property. by intros -> ->. Qed.

Lemma recordCompletion_inherited now videoId p d w :
  getAllAnalytics (storage w) !! videoId = None →
  is_Some (inheritedProperty (memberWrites w) videoId) →
  recordCompletion now videoId p d w = (Throw TypeError, w).
Proof.
  unfold recordCompletion, property. intros -> [q Hq]. rewrite Hq.
  apply inheritedProperty_inv in Hq as [[-> _]|(? & -> & _)]; done.
Qed.

Lemma updateAnalytics_absent f videoId w :
  getAllAnalytics (storage w) !! videoId = None →
  updateAnalytics f videoId w = (Return tt, w).
Proof. unfold updateAnalytics. by intros ->. Qed.

Lemma updateAnalytics_inv f videoId w r w' a :
  getAllAnalytics (storage w) !! videoId = Some a →
  updateAnalytics f videoId w = (r, w') →
  (r = Throw QuotaExceededError ∧ storage w' = storage w)
  ∨ (r = Return tt
     ∧ storage w' =
         applyWrite (SetAnalytics (<[videoId := f a]> (getAllAnalytics (storage w))))
                    (storage w)).
Proof.
  unfold updateAnalytics. intros -> Hrun.
  apply setItem_inv in Hrun as (_ & _ & [(-> & Hs & _)|(-> & Hs & _)]); auto.
Qed.

(** Whatever the outcome, the video list and the blobs stay as they are, and
    so does every other entry of the analytics map. *)
Lemma updateAnalytics_frame f videoId w r w' :
  updateAnalytics f videoId w = (r, w') →
  getVideos (storage w') = getVideos (storage w)
  ∧ blobItems (storage w') = blobItems (storage w)
  ∧ ∀ id2, videoId ≠ id2 →
      getAllAnalytics (storage w') !! id2 = getAllAnalytics (storage w) !! id2.
Proof.
  intros Hrun. destruct (getAllAnalytics (storage w) !! videoId) as [a|] eqn:Ha.
  - eapply updateAnalytics_inv in Hrun as [(_ & ->)|(_ & ->)]; [done| |done].
    repeat split; [done..|]. intros id2 Hne.
    autorewrite with store. by rewrite lookup_insert_ne.
  - rewrite updateAnalytics_absent in Hrun by done. by simplify_eq.
Qed.

Lemma updateAnalytics_returned f videoId w w' a :
  getAllAnalytics (storage w) !! videoId = Some a →
  updateAnalytics f videoId w = (Return tt, w') →
  getAllAnalytics (storage w') !! videoId = Some (f a).
Proof.
  intros Ha Hrun.
  eapply updateAnalytics_inv in Hrun as [([=] & _)|(_ & ->)]; [|done].
  autorewrite with store. by rewrite lookup_insert_eq.
Qed.

(** The two calls on an id the object has an entry for. *)
Lemma incrementView_returned now videoId w w' a :
  getAnalytics videoId w = Some (Own a) →
  incrementView now videoId w = (Return tt, w') →
  getAnalytics videoId w' = Some (Own (viewed now a)).
Proof.
  intros Ha%getAnalytics_own Hrun. apply getAnalytics_own.
  rewrite incrementView_update in Hrun by eauto.
  by eapply updateAnalytics_returned.
Qed.

Lemma recordCompletion_returned now videoId p d w w' a :
  getAnalytics videoId w = Some (Own a) →
  recordCompletion now videoId p d w = (Return tt, w') →
  getAnalytics videoId w' = Some (Own (completed now p d a)).
Proof.
  intros Ha%getAnalytics_own Hrun. apply getAnalytics_own.
  rewrite recordCompletion_update in Hrun by eauto.
  by eapply updateAnalytics_returned.
Qed.

(** Whatever the id and the outcome, [incrementView] and
    [recordCompletion] leave the video list and the blobs as they are, and
    every entry of the analytics object but the one of the id. *)
Lemma incrementView_frame now videoId w r w' :
  incrementView now videoId w = (r, w') →
  getVideos (storage w') = getVideos (storage w)
  ∧ blobItems (storage w') = blobItems (storage w)
  ∧ ∀ id2, videoId ≠ id2 →
      getAllAnalytics (storage w') !! id2 = getAllAnalytics (storage w) !! id2.
Proof.
  destruct (lookup_cases videoId w) as [[a Ha]|[[Ha Hin]|[[Ha [v Hin]]|[Ha Hin]]]].
  - rewrite incrementView_update by eauto. apply updateAnalytics_frame.
  - rewrite incrementView_inherited by done. intros Hrun.
    apply setItem_inv in Hrun as (_ & _ & [(_ & -> & _)|(_ & -> & _)]);
      autorewrite with store; done.
  - rewrite (incrementView_stray _ _ _ _ Ha Hin). by intros [= <- <-].
  - rewrite incrementView_update by eauto. apply updateAnalytics_frame.
Qed.

Lemma recordCompletion_frame now videoId p d w r w' :
  recordCompletion now videoId p d w = (r, w') →
  getVideos (storage w') = getVideos (storage w)
  ∧ blobItems (storage w') = blobItems (storage w)
  ∧ ∀ id2, videoId ≠ id2 →
      getAllAnalytics (storage w') !! id2 = getAllAnalytics (storage w) !! id2.
Proof.
  destruct (lookup_cases videoId w) as [[a Ha]|[[Ha Hin]|[[Ha [v Hin]]|[Ha Hin]]]].
  - rewrite recordCompletion_update by eauto. apply updateAnalytics_frame.
  - rewrite recordCompletion_inherited by (by rewrite ?inheritedProperty_member).
    by intros [= <- <-].
  - rewrite recordCompletion_inherited by (by rewrite ?Hin). by intros [= <- <-].
  - rewrite recordCompletion_update by eauto. apply updateAnalytics_frame.
Qed.

Lemma leaves_updateAnalytics f videoId : leavesMembers (updateAnalytics f videoId).
Proof.
  intros w r w'. unfold updateAnalytics.
  destruct (getAllAnalytics (storage w) !! videoId); [apply leaves_setItem|].
  by intros [= <- <-].
Qed.

(** [recordCompletion] writes on no member; [incrementView] on the one it
    was given the name of, and only when no entry hides it. *)
Lemma leaves_recordCompletion now videoId p d :
  leavesMembers (recordCompletion now videoId p d).
Proof.
  intros w r w'.
  destruct (lookup_cases videoId w) as [[a Ha]|[[Ha Hin]|[[Ha [v Hin]]|[Ha Hin]]]].
  - rewrite recordCompletion_update by eauto. apply leaves_updateAnalytics.
  - rewrite recordCompletion_inherited by (by rewrite ?inheritedProperty_member).
    by intros [= <- <-].
  - rewrite recordCompletion_inherited by (by rewrite ?Hin). by intros [= <- <-].
  - rewrite recordCompletion_update by eauto. apply leaves_updateAnalytics.
Qed.

Lemma incrementView_members now videoId w r w' :
  incrementView now videoId w = (r, w') →
  memberWrites w' = memberWrites w
  ∨ (getAllAnalytics (storage w) !! videoId = None ∧ inherited videoId = true
     ∧ memberWrites w' = memberWrites w ++ [(videoId, now)]).
Proof.
  destruct (lookup_cases videoId w) as [[a Ha]|[[Ha Hin]|[[Ha [v Hin]]|[Ha Hin]]]].
  - rewrite incrementView_update by eauto. intros Hrun. left.
    by eapply leaves_updateAnalytics.
  - rewrite incrementView_inherited by done. intros Hrun%leaves_setItem.
    right. by rewrite Hrun.
  - rewrite (incrementView_stray _ _ _ _ Ha Hin). intros [= <- <-]. by left.
  - rewrite incrementView_update by eauto. intros Hrun. left.
    by eapply leaves_updateAnalytics.
Qed.

Lemma removeBlob_absent id s :
  getVideoBlob id s = None → removeBlob id s = s.
Proof.
  unfold getVideoBlob, removeBlob. intros Hb. destruct s as [vs bs an]; simpl in *.
  by rewrite delete_id.
Qed.

(** *** Deletion *)


(** Whatever its outcome, [deleteVideo id1] leaves the record, the blob and
    the analytics of every other id as they were. *)
Lemma deleteVideo_frame id1 id2 w r w' :
  id1 ≠ id2 →
  deleteVideo id1 w = (r, w') →
  getVideo id2 (storage w') = getVideo id2 (storage w)
  ∧ getVideoBlob id2 (storage w') = getVideoBlob id2 (storage w)
  ∧ getAnalytics id2 w' = getAnalytics id2 w.
Proof.
  intros Hne Hrun. pose proof (leaves_deleteVideo _ _ _ _ Hrun) as Hm.
  assert (Hreads :
    getVideo id2 (storage w') = getVideo id2 (storage w)
    ∧ getVideoBlob id2 (storage w') = getVideoBlob id2 (storage w)
    ∧ getAllAnalytics (storage w') !! id2 = getAllAnalytics (storage w) !! id2).
  { apply deleteVideo_inv in Hrun as [(_ & ->)|[(_ & ->)|(_ & ->)]]; [done|..];
      unfold getVideo, getVideoBlob; autorewrite with store;
      rewrite ?filter_fixed, ?find_filter_other by done;
      rewrite ?lookup_delete_ne by done; done. }
  destruct Hreads as (Hv & Hb & Ha). split; [done|]. split; [done|].
  apply getAnalytics_same; [done|]. by rewrite Hm.
Qed.

(** On an id the store does not know, [deleteVideo] changes nothing that
    can be read back, whatever its outcome. *)
Lemma deleteVideo_absent_unchanged id w r w' :
  getVideo id (storage w) = None →
  getVideoBlob id (storage w) = None →
  getAllAnalytics (storage w) !! id = None →
  deleteVideo id w = (r, w') →
  getVideos (storage w') = getVideos (storage w)
  ∧ blobItems (storage w') = blobItems (storage w)
  ∧ getAllAnalytics (storage w') = getAllAnalytics (storage w).
Proof.
  unfold getVideo, getVideoBlob. intros Hv Hb Ha Hrun.
  apply deleteVideo_inv in Hrun as [(_ & ->)|[(_ & ->)|(_ & ->)]]; [done|..];
    autorewrite with store; rewrite filter_fixed, filter_absent by done;
    rewrite !delete_id by done; done.
Qed.

(** [deleteVideo] writes the list and the analytics object back whether it
    found the id or not; on an id the list does not know, the two writes
    decide how it ends. *)
Lemma deleteVideo_absent_outcome id w :
  getVideo id (storage w) = None →
  let listWrite :=
    quota (setItemCalls w) (storage w) (SetVideos (getVideos (storage w))) in
  let analyticsWrite :=
    quota (S (setItemCalls w))
          (removeBlob id (applyWrite (SetVideos (getVideos (storage w))) (storage w)))
          (SetAnalytics (delete id (getAllAnalytics (storage w)))) in
  ∃ w', deleteVideo id w
        = (if listWrite && analyticsWrite then Return tt else Throw QuotaExceededError,
           w').
Proof.
  unfold getVideo. intros Hv. cbv zeta. unfold deleteVideo.
  rewrite filter_absent by done.
  unfold mbind, Eff_bind, bind.
  destruct (quota (setItemCalls w) _ _) eqn:Hq1.
  - rewrite setItem_accepted by done.
    unfold removeItem, deleteAnalytics. simpl.
    destruct (quota (S (setItemCalls w)) _ _) eqn:Hq2.
    + rewrite setItem_accepted by done. eauto.
    + rewrite setItem_rejected by done. eauto.
  - rewrite setItem_rejected by done. simpl. eauto.
Qed.


(** C10. Mutations are isolated per id: [incrementView id1],
    [recordCompletion id1] and [deleteVideo id1] leave the record, the blob
    and the analytics record stored for every other id as they were,
    whatever their outcome, and with them what [getAnalytics] returns for
    that id (one case apart: a view counted on [__proto__] is a write on
    the prototype, which [getAnalytics] then finds under [lastViewed]);
    [incrementView] changes only [views] and [lastViewed] of its own entry,
    [recordCompletion] only [completionData] and
    [averageWatchPercentage]. *)
Theorem mutations_isolated id1 id2 now (p d : Q) w :
  id1 ≠ id2 →
  (∀ r w', incrementView now id1 w = (r, w') →
     getVideo id2 (storage w') = getVideo id2 (storage w)
     ∧ getVideoBlob id2 (storage w') = getVideoBlob id2 (storage w)
     ∧ getAllAnalytics (storage w') !! id2 = getAllAnalytics (storage w) !! id2
     ∧ (id1 ≠ "__proto__" ∨ id2 ≠ "lastViewed" →
        getAnalytics id2 w' = getAnalytics id2 w))
  ∧ (∀ r w', recordCompletion now id1 p d w = (r, w') →
     getVideo id2 (storage w') = getVideo id2 (storage w)
     ∧ getVideoBlob id2 (storage w') = getVideoBlob id2 (storage w)
     ∧ getAllAnalytics (storage w') !! id2 = getAllAnalytics (storage w) !! id2
     ∧ getAnalytics id2 w' = getAnalytics id2 w)
  ∧ (∀ r w', deleteVideo id1 w = (r, w') →
     getVideo id2 (storage w') = getVideo id2 (storage w)
     ∧ getVideoBlob id2 (storage w') = getVideoBlob id2 (storage w)
     ∧ getAllAnalytics (storage w') !! id2 = getAllAnalytics (storage w) !! id2
     ∧ getAnalytics id2 w' = getAnalytics id2 w)
  ∧ (∀ a w', getAnalytics id1 w = Some (Own a) →
     incrementView now id1 w = (Return tt, w') →
     ∃ a', getAnalytics id1 w' = Some (Own a')
           ∧ videoId a' = videoId a
           ∧ completionData a' = completionData a
           ∧ averageWatchPercentage a' = averageWatchPercentage a)
  ∧ (∀ a w', getAnalytics id1 w = Some (Own a) →
     recordCompletion now id1 p d w = (Return tt, w') →
     ∃ a', getAnalytics id1 w' = Some (Own a')
           ∧ videoId a' = videoId a
           ∧ views a' = views a
           ∧ lastViewed a' = lastViewed a).
Proof.
  intros Hne.
  assert (Hframe : ∀ w',
     getVideos (storage w') = getVideos (storage w)
     ∧ blobItems (storage w') = blobItems (storage w)
     ∧ (∀ i, id1 ≠ i →
          getAllAnalytics (storage w') !! i = getAllAnalytics (storage w) !! i) →
     getVideo id2 (storage w') = getVideo id2 (storage w)
     ∧ getVideoBlob id2 (storage w') = getVideoBlob id2 (storage w)
     ∧ getAllAnalytics (storage w') !! id2 = getAllAnalytics (storage w) !! id2).
  { intros w' (Hv & Hb & Ha). unfold getVideo, getVideoBlob. rewrite Hv, Hb. auto. }
  split.
  { intros r w' Hrun.
    destruct (Hframe w' (incrementView_frame _ _ _ _ _ Hrun)) as (Hv & Hb & Ha).
    split; [done|]. split; [done|]. split; [done|].
    intros Hcase. apply getAnalytics_same; [done|].
    apply incrementView_members in Hrun as [->|(_ & _ & ->)]; [done|].
    by apply inheritedProperty_app. }
  split.
  { intros r w' Hrun.
    destruct (Hframe w' (recordCompletion_frame _ _ _ _ _ _ _ Hrun)) as (Hv & Hb & Ha).
    split; [done|]. split; [done|]. split; [done|].
    apply getAnalytics_same; [done|].
    by rewrite (leaves_recordCompletion _ _ _ _ _ _ _ Hrun). }
  split.
  { intros r w' Hrun.
    destruct (deleteVideo_frame _ _ _ _ _ Hne Hrun) as (Hv & Hb & Ha).
    split; [done|]. split; [done|]. split; [|done].
    apply deleteVideo_inv in Hrun as [(_ & ->)|[(_ & ->)|(_ & ->)]];
      autorewrite with store; rewrite ?lookup_delete_ne by done; done. }
  split.
  - intros a w' Ha Hrun. exists (viewed now a).
    split; [by eapply incrementView_returned|done].
  - intros a w' Ha Hrun. exists (completed now p d a).
    split; [by eapply recordCompletion_returned|done].
Qed.

(** *** Sequences of analytics calls *)

Lemma forEach_cons_inv {A} (x : A) (l : list A) (f : A → Eff unit) w r w' :
  forEach (x :: l) f w = (r, w') →
  (∃ w1, f x w = (Return tt, w1) ∧ forEach l f w1 = (r, w'))
  ∨ (∃ e, f x w = (Throw e, w') ∧ r = Throw e).
Proof.
  simpl. intros Hrun. apply bind_inv in Hrun as [([] & w1 & ? & ?)|?]; eauto.
Qed.







(** *** The running average *)






(** *** uploadVideo *)

Lemma storeVideo_inv videoData base64 w r w' :
  storeVideo videoData base64 w = (r, w') →
  StoreVideoOutcome videoData base64 (storage w) r (storage w')
  ∧ console w' = console w.
Proof.
  unfold storeVideo. intros Hrun.
  apply bind_inv in Hrun as [([] & w1 & H1 & Hrun)|(e & H1 & ->)];
    apply setItem_inv in H1 as (Hc1 & _ & [(? & Hs1 & _)|(? & Hs1 & _)]);
    simplify_eq; [|rewrite Hs1; split; [constructor|done]].
  apply bind_inv in Hrun as [([] & w2 & H2 & Hrun)|(e & H2 & ->)];
    apply setItem_inv in H2 as (Hc2 & _ & [(? & Hs2 & _)|(? & Hs2 & _)]);
    simplify_eq; [|rewrite Hs2, Hs1, Hc2; split; [constructor|done]].
  unfold initializeAnalytics in Hrun.
  apply setItem_inv in Hrun as (Hc3 & _ & [(-> & Hs3 & _)|(-> & Hs3 & _)]);
    rewrite Hs3, Hs2, Hs1, Hc3, Hc2; autorewrite with store;
    (split; [constructor|done]).
Qed.

(** *** Sorting newest first *)

Lemma sortVideos_perm l : sortVideos l ≡ₚ l.
Proof.
  unfold sortVideos. destruct (forallb _ l).
  - apply insertionSort_perm.
  - apply sortUndated_perm.
Qed.






(** What the sort returns was read from the store. *)
Lemma sortVideos_fixed s n :
  VideoMetadata.parsed <$> take n (sortVideos (getVideos s))
  = take n (sortVideos (getVideos s)).
Proof.
  apply (getVideos_sublist_fixed s). intros v Hv.
  apply subseteq_take in Hv. by rewrite sortVideos_perm in Hv.
Qed.

(** *** Eviction *)

Lemma deleteIds_subseteq {V} ids (m : gmap string V) : deleteIds ids m ⊆ m.
Proof.
  revert m. induction ids as [|i ids IH]; intros m; simpl; [done|].
  etrans; [apply IH|apply delete_subseteq].
Qed.

Lemma lookup_deleteIds {V} ids (m : gmap string V) i :
  deleteIds ids m !! i = if decide (i ∈ ids) then None else m !! i.
Proof.
  revert m. induction ids as [|j ids IH]; intros m.
  - done.
  - change (deleteIds ids (delete j m) !! i = if decide (i ∈ j :: ids) then None else m !! i).
    rewrite IH.
    destruct (decide (i = j)) as [Heq|Hne].
    + rewrite Heq, lookup_delete_eq.
      rewrite (decide_True (P := j ∈ j :: ids)) by apply list_elem_of_here.
      by destruct (decide (j ∈ ids)).
    + rewrite lookup_delete_ne by done.
      destruct (decide (i ∈ ids)) as [Hin|Hnin].
      * by rewrite decide_True by (by apply list_elem_of_further).
      * rewrite decide_False; [done|]. by intros [?|?]%elem_of_cons.
Qed.

(** The body of the loop of [cleanupOldVideos]. *)
#[local] Abbreviation evict :=
  (λ video : VideoMetadata.t,
     removeItem (VideoMetadata.id video);;
     deleteAnalytics (VideoMetadata.id video)).

Lemma evictLoop_inv l : ∀ w r w',
  forEach l evict w = (r, w') →
  videosItem (storage w') = videosItem (storage w)
  ∧ console w' = console w
  ∧ blobItems (storage w') ⊆ blobItems (storage w)
  ∧ getAllAnalytics (storage w') ⊆ getAllAnalytics (storage w)
  ∧ (r = Throw QuotaExceededError
     ∨ (r = Return tt
        ∧ blobItems (storage w')
          = deleteIds (VideoMetadata.id <$> l) (blobItems (storage w))
        ∧ getAllAnalytics (storage w')
          = deleteIds (VideoMetadata.id <$> l) (getAllAnalytics (storage w)))).
Proof.
  induction l as [|v l IH]; intros w r w' Hrun.
  - injection Hrun as <- <-. repeat split; [done..|]. right. done.
  - apply forEach_cons_inv in Hrun as [(w1 & H1 & Hrun)|(e & H1 & ->)].
    + apply bind_inv in H1 as [([] & w0 & [= <-] & H1)|(e & [=] & _)].
      apply setItem_inv in H1 as (Hc & _ & [(_ & Hs & _)|([=] & _)]).
      simpl in Hs, Hc. autorewrite with store in Hs.
      apply IH in Hrun as (Hv & Hcon & Hb & Ha & Hr).
      rewrite Hs in Hv, Hb, Ha, Hr. autorewrite with store in Hv, Hb, Ha, Hr.
      simpl in Hv, Hb.
      split; [done|]. split; [congruence|].
      split; [etrans; [exact Hb|apply delete_subseteq]|].
      split; [etrans; [exact Ha|apply delete_subseteq]|].
      destruct Hr as [->|(-> & Hbs & Has)]; [by left|right]. done.
    + apply bind_inv in H1 as [([] & w0 & [= <-] & H1)|(e' & [=] & _)].
      apply setItem_inv in H1 as (Hc & _ & [([=] & _)|([= ->] & Hs & _)]).
      simpl in Hs, Hc. rewrite Hs. simpl.
      repeat split; [done|apply delete_subseteq|done|by left].
Qed.

Lemma cleanupOldVideos_small keepCount w :
  (length (getVideos (storage w)) ≤ keepCount)%nat →
  cleanupOldVideos keepCount w = (Return tt, w).
Proof.
  intros Hle. unfold cleanupOldVideos.
  by rewrite (proj2 (Nat.leb_le _ _) Hle).
Qed.

(** [cleanupOldVideos] returns at once when there is nothing to evict;
    otherwise it only ever removes blobs and analytics entries, and when it
    returns the store holds the first [keepCount] records of the sorted list
    and neither blob nor analytics of the others. *)
Lemma cleanupOldVideos_inv keepCount w r w' :
  cleanupOldVideos keepCount w = (r, w') →
  let videos := getVideos (storage w) in
  let sorted := sortVideos videos in
  ((length videos ≤ keepCount)%nat ∧ r = Return tt ∧ w' = w)
  ∨ ((keepCount < length videos)%nat
     ∧ blobItems (storage w') ⊆ blobItems (storage w)
     ∧ getAllAnalytics (storage w') ⊆ getAllAnalytics (storage w)
     ∧ ((r = Throw QuotaExceededError
         ∧ getVideos (storage w') = videos
         ∧ console w'
           = console w ++ [LogDeleting (length (drop keepCount sorted))])
        ∨ (r = Return tt
           ∧ getVideos (storage w') = take keepCount sorted
           ∧ blobItems (storage w')
             = deleteIds (VideoMetadata.id <$> drop keepCount sorted)
                         (blobItems (storage w))
           ∧ getAllAnalytics (storage w')
             = deleteIds (VideoMetadata.id <$> drop keepCount sorted)
                         (getAllAnalytics (storage w))
           ∧ console w'
             = console w ++ [LogDeleting (length (drop keepCount sorted));
                             LogKept (length (take keepCount sorted))]))).
Proof.
  intros Hrun videos sorted. unfold cleanupOldVideos in Hrun.
  fold videos in Hrun. fold sorted in Hrun.
  destruct (length videos <=? keepCount)%nat eqn:E.
  { apply Nat.leb_le in E. injection Hrun as <- <-. by left. }
  apply Nat.leb_gt in E. right. split; [done|].
  apply bind_inv in Hrun as [([] & w0 & [= <-] & Hrun)|(e & [=] & _)].
  apply bind_inv in Hrun as [([] & w1 & H1 & Hrun)|(e & H1 & ->)];
    apply evictLoop_inv in H1 as (Hv & Hc & Hb & Ha & Hr); simpl in Hv, Hc, Hb, Ha.
  - destruct Hr as [[=]|(_ & Hbs & Has)]. simpl in Hbs, Has.
    apply bind_inv in Hrun as [([] & w2 & H2 & Hrun)|(e & H2 & ->)];
      apply setItem_inv in H2 as (Hc2 & _ & [(? & Hs2 & _)|(? & Hs2 & _)]);
      simplify_eq.
    + injection Hrun as <- <-. simpl. rewrite Hs2. autorewrite with store.
      split; [done|]. split; [done|]. right.
      rewrite Hc2, Hc, <- Hbs, <- Has, <- app_assoc.
      split; [done|]. split; [apply sortVideos_fixed|done].
    + rewrite Hs2. split; [done|]. split; [done|]. left.
      unfold getVideos. rewrite Hv, Hc2, Hc. done.
  - destruct Hr as [->|([=] & _)].
    split; [done|]. split; [done|]. left.
    unfold getVideos. rewrite Hv, Hc. done.
Qed.

(** How a call of [uploadVideo] can go. *)
Lemma uploadVideo_inv id (file : Blob) metadata w r w' :
  uploadVideo id file metadata w = (r, w') →
  let videoData := makeVideoData id metadata in
  (blobToBase64 file = None ∧ r = Throw FileReaderError ∧ w' = w)
  ∨ ∃ base64, blobToBase64 file = Some base64 ∧
    ((storeVideo videoData base64 w = (Return tt, w') ∧ r = Return videoData)
     ∨ ∃ w1, storeVideo videoData base64 w = (Throw QuotaExceededError, w1) ∧
       ((cleanupOldVideos 3 (logged WarnQuotaExceeded w1)
           = (Throw QuotaExceededError, w')
         ∧ r = Throw QuotaExceededError)
        ∨ ∃ w2, cleanupOldVideos 3 (logged WarnQuotaExceeded w1) = (Return tt, w2) ∧
          ((∃ w3, storeVideo videoData base64 w2 = (Return tt, w3)
                  ∧ r = Return videoData
                  ∧ w' = logged LogUploadedAfterCleanup w3)
           ∨ (∃ w3, storeVideo videoData base64 w2 = (Throw QuotaExceededError, w3)
                    ∧ r = Throw StorageQuotaError
                    ∧ w' = logged ErrorStillNoSpace w3)))).
Proof.
  intros Hrun videoData. unfold uploadVideo in Hrun. fold videoData in Hrun.
  destruct (blobToBase64 file) as [base64|]; [|injection Hrun as <- <-; by left].
  right. exists base64. split; [done|].
  unfold tryCatch at 1 in Hrun. unfold mbind at 1, Eff_bind at 1, bind at 1 in Hrun.
  destruct (storeVideo videoData base64 w) as [[[]|e] w1] eqn:H1.
  { injection Hrun as <- <-. by left. }
  right. exists w1.
  pose proof (storeVideo_inv _ _ _ _ _ H1) as [Ho _].
  assert (e = QuotaExceededError) as -> by (by inversion Ho). split; [done|].
  apply bind_inv in Hrun as [([] & w0 & [= <-] & Hrun)|(e & [=] & _)].
  apply bind_inv in Hrun as [([] & w2 & H2 & Hrun)|(e & H2 & ->)]; last first.
  { left. apply cleanupOldVideos_inv in H2 as Hc.
    destruct Hc as [(_ & [=] & _)|(_ & _ & _ & [([= ->] & _)|([=] & _)])]. done. }
  right. exists w2. split; [done|].
  unfold tryCatch in Hrun. unfold mbind at 1, Eff_bind at 1, bind at 1 in Hrun.
  destruct (storeVideo videoData base64 w2) as [[[]|e] w3] eqn:H3.
  - left. exists w3. simpl in Hrun. injection Hrun as <- <-. done.
  - right. exists w3. simpl in Hrun. injection Hrun as <- <-.
    pose proof (storeVideo_inv _ _ _ _ _ H3) as [Ho3 _].
    assert (e = QuotaExceededError) as -> by (by inversion Ho3). done.
Qed.

(** *** Rejected writes *)

Lemma stops_setItem wr : stopsAtRejection (setItem wr).
Proof.
  intros w r w'. unfold setItem.
  destruct (quota _ _ _); intros [= <- <-]; simpl; eauto.
Qed.

Lemma stops_ret {A} (a : A) : stopsAtRejection (ret a).
Proof. intros w r w' [= <- <-]. eauto. Qed.

Lemma stops_consoleLog msg : stopsAtRejection (consoleLog msg).
Proof. intros w r w' [= <- <-]. eauto. Qed.

Lemma stops_removeItem id : stopsAtRejection (removeItem id).
Proof. intros w r w' [= <- <-]. eauto. Qed.

Lemma stops_bind {A B} (m : Eff A) (k : A → Eff B) :
  stopsAtRejection m → (∀ a, stopsAtRejection (k a)) → stopsAtRejection (m ≫= k).
Proof.
  intros Hm Hk w r w' Hrun.
  apply bind_inv in Hrun as [(a & w1 & H1 & Hrun)|(e & H1 & ->)].
  - apply Hm in H1 as [(_ & <-)|([=] & _)]. by eapply Hk.
  - apply Hm in H1 as [([a [=]] & _)|([= ->] & ?)]. by right.
Qed.

Lemma stops_forEach {A} (l : list A) (f : A → Eff unit) :
  (∀ x, stopsAtRejection (f x)) → stopsAtRejection (forEach l f).
Proof.
  intros Hf. induction l as [|x l IH]; simpl; [apply stops_ret|].
  apply stops_bind; auto.
Qed.

Lemma stops_deleteAnalytics videoId : stopsAtRejection (deleteAnalytics videoId).
Proof. intros w r w'. unfold deleteAnalytics. apply stops_setItem. Qed.

Lemma stops_initializeAnalytics videoId :
  stopsAtRejection (initializeAnalytics videoId).
Proof. intros w r w'. unfold initializeAnalytics. apply stops_setItem. Qed.

Lemma stops_updateAnalytics f videoId : stopsAtRejection (updateAnalytics f videoId).
Proof.
  intros w r w'. unfold updateAnalytics.
  destruct (_ !! _); [apply stops_setItem|apply stops_ret].
Qed.

(** [incrementView] and [recordCompletion] end like their one write,
    unless they raise a [TypeError], before any write. *)
Lemma stops_incrementView now videoId w r w' :
  incrementView now videoId w = (r, w') →
  (r = Throw TypeError ∧ w' = w)
  ∨ ((∃ a, r = Return a) ∧ rejected w' = rejected w)
  ∨ (r = Throw QuotaExceededError ∧ rejected w' = S (rejected w)).
Proof.
  unfold incrementView. cbv zeta.
  destruct (property _ _ _) as [[a|member|value]|].
  - intros Hrun. right. by apply stops_setItem in Hrun.
  - intros Hrun. right. by apply stops_setItem in Hrun.
  - intros [= <- <-]. by left.
  - intros [= <- <-]. right. left. eauto.
Qed.

Lemma stops_recordCompletion now videoId p d w r w' :
  recordCompletion now videoId p d w = (r, w') →
  (r = Throw TypeError ∧ w' = w)
  ∨ ((∃ a, r = Return a) ∧ rejected w' = rejected w)
  ∨ (r = Throw QuotaExceededError ∧ rejected w' = S (rejected w)).
Proof.
  unfold recordCompletion. cbv zeta.
  destruct (property _ _ _) as [[a|member|value]|].
  - intros Hrun. right. by apply stops_setItem in Hrun.
  - intros [= <- <-]. by left.
  - intros [= <- <-]. by left.
  - intros [= <- <-]. right. left. eauto.
Qed.

Lemma stops_deleteVideo id : stopsAtRejection (deleteVideo id).
Proof.
  intros w r w'. unfold deleteVideo. cbv beta zeta.
  apply stops_bind; [apply stops_setItem|intros _].
  apply stops_bind; [apply stops_removeItem|intros _].
  apply stops_deleteAnalytics.
Qed.

Lemma stops_storeVideo videoData base64 :
  stopsAtRejection (storeVideo videoData base64).
Proof.
  intros w r w'. unfold storeVideo. cbv beta zeta.
  apply stops_bind; [apply stops_setItem|intros _].
  apply stops_bind; [apply stops_setItem|intros _].
  apply stops_initializeAnalytics.
Qed.

Lemma stops_cleanupOldVideos keepCount :
  stopsAtRejection (cleanupOldVideos keepCount).
Proof.
  intros w r w'. unfold cleanupOldVideos. cbv beta zeta.
  destruct (_ <=? _)%nat; [apply stops_ret|].
  apply stops_bind; [apply stops_consoleLog|intros _].
  apply stops_bind.
  { apply stops_forEach. intros v.
    apply stops_bind; [apply stops_removeItem|intros _].
    apply stops_deleteAnalytics. }
  intros _. apply stops_bind; [apply stops_setItem|intros _].
  apply stops_consoleLog.
Qed.

(** When the first [storeVideo] is rejected and the cleanup returns, one
    more [storeVideo] decides the call. *)
Lemma uploadVideo_retry id (file : Blob) metadata w base64 w1 w2 :
  blobToBase64 file = Some base64 →
  storeVideo (makeVideoData id metadata) base64 w = (Throw QuotaExceededError, w1) →
  cleanupOldVideos 3 (logged WarnQuotaExceeded w1) = (Return tt, w2) →
  uploadVideo id file metadata w
  = match storeVideo (makeVideoData id metadata) base64 w2 with
    | (Return _, w3) =>
        (Return (makeVideoData id metadata), logged LogUploadedAfterCleanup w3)
    | (Throw _, w3) => (Throw StorageQuotaError, logged ErrorStillNoSpace w3)
    end.
Proof.
  intros Hb H1 H2. unfold uploadVideo. rewrite Hb.
  unfold tryCatch at 1. unfold mbind at 1, Eff_bind at 1, bind at 1. rewrite H1.
  unfold mbind at 1, Eff_bind at 1, bind at 1.
  unfold mbind at 1, Eff_bind at 1, bind at 1.
  change (consoleLog WarnQuotaExceeded w1)
    with (Return tt, logged WarnQuotaExceeded w1).
  cbv iota. rewrite H2.
  unfold tryCatch, mbind, Eff_bind, bind.
  by destruct (storeVideo _ _ w2) as [[[]|e] w3].
Qed.

(** C8, as the code has it.  The error that [uploadVideo] makes for a full
    store ([StorageQuotaError]) comes from [uploadVideo] only, and only
    after the first [storeVideo] was rejected, the cleanup ran and the one
    retry was rejected too; the world it leaves is the world at that second
    rejection (plus the console line), so nothing is tried after it.  A
    rejected first [storeVideo] followed by a cleanup that returns leads to
    exactly one more [storeVideo], whose outcome is the outcome of the
    call.  The [QuotaExceededError] of [localStorage] itself is caught
    nowhere else: [deleteVideo], [incrementView] and [recordCompletion]
    stop at their first rejected write and pass it on (the only other way
    the last two can fail is a [TypeError], before any write), and so does
    [uploadVideo], without a retry, when a write of the cleanup is
    rejected.  [uploadVideo] sees at most two rejections, every other call
    at most one. *)
Theorem capacity_error_discipline :
  (∀ id, stopsAtRejection (deleteVideo id))
  ∧ (∀ now videoId w r w',
       incrementView now videoId w = (r, w') →
       (r = Throw TypeError ∧ w' = w)
       ∨ ((∃ a, r = Return a) ∧ rejected w' = rejected w)
       ∨ (r = Throw QuotaExceededError ∧ rejected w' = S (rejected w)))
  ∧ (∀ now videoId (p d : Q) w r w',
       recordCompletion now videoId p d w = (r, w') →
       (r = Throw TypeError ∧ w' = w)
       ∨ ((∃ a, r = Return a) ∧ rejected w' = rejected w)
       ∨ (r = Throw QuotaExceededError ∧ rejected w' = S (rejected w)))
  ∧ (∀ id (file : Blob) metadata w r w',
       uploadVideo id file metadata w = (r, w') →
       (rejected w' ≤ rejected w + 2)%nat
       ∧ (r = Throw StorageQuotaError →
          ∃ base64 w1 w2 w3,
            blobToBase64 file = Some base64
            ∧ storeVideo (makeVideoData id metadata) base64 w
              = (Throw QuotaExceededError, w1)
            ∧ cleanupOldVideos 3 (logged WarnQuotaExceeded w1) = (Return tt, w2)
            ∧ storeVideo (makeVideoData id metadata) base64 w2
              = (Throw QuotaExceededError, w3)
            ∧ w' = logged ErrorStillNoSpace w3
            ∧ rejected w' = (rejected w + 2)%nat)
       ∧ (r = Throw QuotaExceededError →
          ∃ base64 w1,
            blobToBase64 file = Some base64
            ∧ storeVideo (makeVideoData id metadata) base64 w
              = (Throw QuotaExceededError, w1)
            ∧ cleanupOldVideos 3 (logged WarnQuotaExceeded w1)
              = (Throw QuotaExceededError, w')
            ∧ rejected w' = (rejected w + 2)%nat))
  ∧ (∀ id (file : Blob) metadata w base64 w1 w2,
       blobToBase64 file = Some base64 →
       storeVideo (makeVideoData id metadata) base64 w
       = (Throw QuotaExceededError, w1) →
       cleanupOldVideos 3 (logged WarnQuotaExceeded w1) = (Return tt, w2) →
       uploadVideo id file metadata w
       = match storeVideo (makeVideoData id metadata) base64 w2 with
         | (Return _, w3) =>
             (Return (makeVideoData id metadata), logged LogUploadedAfterCleanup w3)
         | (Throw _, w3) => (Throw StorageQuotaError, logged ErrorStillNoSpace w3)
         end).
Proof.
  split; [apply stops_deleteVideo|].
  split; [apply stops_incrementView|].
  split; [apply stops_recordCompletion|].
  split; [|apply uploadVideo_retry].
  intros id file metadata w r w' Hrun.
  apply uploadVideo_inv in Hrun
    as [(_ & -> & ->)|(base64 & Hb & [(H1 & ->)|(w1 & H1 & Hrun)])].
  { split; [lia|]. split; done. }
  { apply stops_storeVideo in H1 as [(_ & ->)|([=] & _)].
    split; [lia|]. split; done. }
  pose proof (stops_storeVideo _ _ _ _ _ H1) as [([? [=]] & _)|(_ & Hr1)].
  destruct Hrun as [(H2 & ->)|(w2 & H2 & Hrun)].
  { pose proof (stops_cleanupOldVideos _ _ _ _ H2) as [([? [=]] & _)|(_ & Hr2)].
    simpl in Hr2. split; [lia|]. split; [done|]. intros _.
    exists base64, w1. repeat split; [done..|lia]. }
  pose proof (stops_cleanupOldVideos _ _ _ _ H2) as [(_ & Hr2)|([=] & _)].
  simpl in Hr2.
  destruct Hrun as [(w3 & H3 & -> & ->)|(w3 & H3 & -> & ->)].
  - apply stops_storeVideo in H3 as [(_ & Hr3)|([=] & _)].
    simpl. split; [lia|]. split; done.
  - pose proof (stops_storeVideo _ _ _ _ _ H3) as [([? [=]] & _)|(_ & Hr3)].
    simpl. split; [lia|]. split; [|done]. intros _.
    exists base64, w1, w2, w3. repeat split; [done..|lia].
Qed.

(** *** A stored video *)

Lemma stored_reads videoData base64 s s' :
  StoreVideoOutcome videoData base64 s (Return tt) s' →
  getVideos s' = getVideos s ++ [VideoMetadata.parsed videoData]
  ∧ blobItems s' = <[VideoMetadata.id videoData := base64]> (blobItems s)
  ∧ getAllAnalytics s'
    = <[VideoMetadata.id videoData := zeroAnalytics (VideoMetadata.id videoData)]>
        (getAllAnalytics s).
Proof.
  inversion 1. autorewrite with store. by rewrite getVideos_appended.
Qed.

Lemma rejected_reads videoData base64 s s' :
  StoreVideoOutcome videoData base64 s (Throw QuotaExceededError) s' →
  (getVideos s' = getVideos s
   ∨ getVideos s' = getVideos s ++ [VideoMetadata.parsed videoData])
  ∧ (blobItems s' = blobItems s
     ∨ blobItems s' = <[VideoMetadata.id videoData := base64]> (blobItems s))
  ∧ getAllAnalytics s' = getAllAnalytics s.
Proof.
  inversion 1; autorewrite with store; rewrite ?getVideos_appended; auto.
Qed.

(** A returning [uploadVideo] ends with the three writes of a [storeVideo]
    that was accepted as a whole. *)
Lemma uploadVideo_returned id (file : Blob) metadata w videoData w' :
  uploadVideo id file metadata w = (Return videoData, w') →
  videoData = makeVideoData id metadata
  ∧ ∃ base64 s, blobToBase64 file = Some base64
      ∧ StoreVideoOutcome videoData base64 s (Return tt) (storage w')
      ∧ (∀ v, v ∈ getVideos s →
           v ∈ getVideos (storage w) ∨ v = VideoMetadata.parsed videoData).
Proof.
  intros Hrun.
  apply uploadVideo_inv in Hrun
    as [(_ & [=] & _)|(base64 & Hb & [(H1 & [= ->])|(w1 & H1 & Hrun)])].
  { split; [done|]. exists base64, (storage w). split; [done|].
    apply storeVideo_inv in H1 as [Ho _]. split; [done|auto]. }
  destruct Hrun as [(_ & [=])|(w2 & H2 & [(w3 & H3 & [= ->] & ->)|(? & _ & [=] & _)])].
  split; [done|]. exists base64, (storage w2). split; [done|].
  apply storeVideo_inv in H3 as [Ho _]. split; [done|].
  apply storeVideo_inv in H1 as [Ho1 _]. apply rejected_reads in Ho1 as (Hv1 & _).
  assert (Hsub : getVideos (storage w2) ⊆ getVideos (storage w1)).
  { apply cleanupOldVideos_inv in H2
      as [(_ & _ & ->)|(_ & _ & _ & [([=] & _)|(_ & -> & _)])]; [done|].
    simpl. etrans; [apply subseteq_take|]. by rewrite sortVideos_perm. }
  intros v Hv. apply Hsub in Hv.
  destruct Hv1 as [Hv1|Hv1]; rewrite Hv1 in Hv; [by left|].
  apply elem_of_app in Hv as [?|?%list_elem_of_singleton]; auto.
Qed.

(** C9. Analytics are zero-initialised at creation: right after a
    returning [uploadVideo], [getAnalytics] of the new id is the record with
    no views, no completion point and average 0, stored together with the
    metadata and the blob. *)
Theorem analytics_zero_initialized id (file : Blob) metadata w videoData w' :
  uploadVideo id file metadata w = (Return videoData, w') →
  getAnalytics (VideoMetadata.id videoData) w'
    = Some (Own (zeroAnalytics (VideoMetadata.id videoData)))
  ∧ views (zeroAnalytics (VideoMetadata.id videoData)) = 0
  ∧ completionData (zeroAnalytics (VideoMetadata.id videoData)) = []
  ∧ averageWatchPercentage (zeroAnalytics (VideoMetadata.id videoData)) = 0%Q
  ∧ VideoMetadata.parsed videoData ∈ getVideos (storage w')
  ∧ is_Some (getVideoBlob (VideoMetadata.id videoData) (storage w')).
Proof.
  intros Hrun. apply uploadVideo_returned in Hrun as (_ & base64 & s & _ & Ho & _).
  apply stored_reads in Ho as (Hv & Hb & Ha).
  split; [apply getAnalytics_own; rewrite Ha; apply lookup_insert_eq|].
  unfold getVideoBlob. rewrite Hv, Hb, !lookup_insert_eq.
  repeat split; [|eauto]. apply elem_of_app. right. by constructor.
Qed.

Lemma find_app_last id videoData (l : list VideoMetadata.t) :
  VideoMetadata.id videoData = id →
  (∀ v, v ∈ l → VideoMetadata.id v = id → v = videoData) →
  List.find (λ v, String.eqb (VideoMetadata.id v) id) (l ++ [videoData])
  = Some videoData.
Proof.
  intros Hid. induction l as [|v l IH]; intros Hl; simpl.
  - by rewrite (proj2 (String.eqb_eq _ _) Hid).
  - destruct (String.eqb (VideoMetadata.id v) id) eqn:E.
    + apply String.eqb_eq in E. f_equal. apply Hl; [by constructor|done].
    + apply IH. intros v' Hv'. apply Hl. by constructor.
Qed.

(** C3, as the code has it.  After [uploadVideo] has returned the record
    [videoData], [getVideoBlob] of its id gives the data URL of the
    payload.  When the generated id is not the id of a stored record,
    [getVideo] of its id gives the record as it has been through JSON, with
    [null] for a duration or a size that is not finite; it is [videoData]
    itself when the duration and the size of the metadata are finite. *)
Theorem upload_round_trip id (file : Blob) metadata w videoData w' :
  uploadVideo id file metadata w = (Return videoData, w') →
  getVideoBlob (VideoMetadata.id videoData) (storage w') = blobToBase64 file
  ∧ (getVideo id (storage w) = None →
     getVideo (VideoMetadata.id videoData) (storage w')
     = Some (VideoMetadata.parsed videoData)
     ∧ (finite (UploadMetadata.duration metadata) = true →
        finite (UploadMetadata.size metadata) = true →
        getVideo (VideoMetadata.id videoData) (storage w') = Some videoData)).
Proof.
  intros Hrun.
  apply uploadVideo_returned in Hrun as (-> & base64 & s & -> & Ho & Hs).
  apply stored_reads in Ho as (Hv & Hb & _).
  split; [unfold getVideoBlob; by rewrite Hb, lookup_insert_eq|].
  intros Hfresh.
  assert (Hget : getVideo (VideoMetadata.id (makeVideoData id metadata)) (storage w')
                 = Some (VideoMetadata.parsed (makeVideoData id metadata))).
  { unfold getVideo. rewrite Hv. apply find_app_last; [done|].
    intros v Hin Hid. destruct (Hs v Hin) as [Hold|?]; [|done].
    unfold getVideo in Hfresh.
    eapply find_none in Hfresh; [|by apply list_elem_of_In].
    simpl in Hfresh, Hid. rewrite Hid, String.eqb_refl in Hfresh. done. }
  split; [done|]. intros Hd Hz. rewrite Hget. f_equal.
  by apply parsed_finite.
Qed.

(** *** What a failing upload leaves *)

Lemma addsOnly_refl videoData base64 s : addsOnly videoData base64 s s.
Proof. split; [auto|]. split; [auto|]. by split. Qed.

Lemma addsOnly_trans videoData base64 s1 s2 s3 :
  addsOnly videoData base64 s1 s2 → addsOnly videoData base64 s2 s3 →
  addsOnly videoData base64 s1 s3.
Proof.
  intros (Hv1 & Hb1 & Ha1 & Ho1) (Hv2 & Hb2 & Ha2 & Ho2).
  split; [|split; [|split]].
  - intros v Hv. destruct (Hv2 v Hv) as [?|?]; auto.
  - intros i b Hb. destruct (Hb2 i b Hb) as [?|?]; auto.
  - by etrans.
  - auto.
Qed.

Lemma elem_of_ids_app_l i (l l' : list VideoMetadata.t) :
  i ∈ VideoMetadata.id <$> l → i ∈ VideoMetadata.id <$> (l ++ l').
Proof. rewrite fmap_app. intros ?. apply elem_of_app. by left. Qed.

(** A [storeVideo] that is rejected. *)
Lemma storeVideo_addsOnly videoData base64 w w' :
  storeVideo videoData base64 w = (Throw QuotaExceededError, w') →
  addsOnly videoData base64 (storage w) (storage w').
Proof.
  intros Hrun. apply storeVideo_inv in Hrun as [Ho _].
  revert Ho. generalize (storage w) (storage w'). intros s s' Ho.
  assert (Hlist : ∀ v, v ∈ getVideos s ++ [VideoMetadata.parsed videoData] →
                       v ∈ getVideos s ∨ v = VideoMetadata.parsed videoData).
  { intros v [?|?%list_elem_of_singleton]%elem_of_app; auto. }
  assert (Hnew : VideoMetadata.id videoData
                 ∈ VideoMetadata.id <$> (getVideos s ++ [VideoMetadata.parsed videoData])).
  { rewrite fmap_app. apply elem_of_app. right. simpl. by constructor. }
  inversion Ho; subst; [apply addsOnly_refl|..];
    unfold addsOnly, noOrphans, getVideoBlob; autorewrite with store;
    rewrite getVideos_appended.
  - split; [done|]. split; [auto|]. split; [done|].
    intros [Hb Ha]. split; intros i Hi; apply elem_of_ids_app_l; auto.
  - split; [done|]. split.
    { intros i b. destruct (decide (VideoMetadata.id videoData = i)) as [<-|Hne].
      - rewrite lookup_insert_eq. intros [= <-]. auto.
      - rewrite lookup_insert_ne by done. auto. }
    split; [done|].
    intros [Hb Ha]. split; intros i Hi; [|apply elem_of_ids_app_l; auto].
    destruct (decide (VideoMetadata.id videoData = i)) as [<-|Hne]; [done|].
    rewrite lookup_insert_ne in Hi by done. apply elem_of_ids_app_l; auto.
Qed.

(** A cleanup that returns. *)
Lemma cleanupOldVideos_addsOnly videoData base64 keepCount w w' :
  cleanupOldVideos keepCount w = (Return tt, w') →
  addsOnly videoData base64 (storage w) (storage w').
Proof.
  intros Hrun.
  apply cleanupOldVideos_inv in Hrun
    as [(_ & _ & ->)|(_ & Hb & Ha & [([=] & _)|(_ & Hvs & Hbs & Has & _)])];
    [apply addsOnly_refl|].
  assert (Hkept : ∀ i,
    i ∈ VideoMetadata.id <$> getVideos (storage w) →
    i ∉ VideoMetadata.id <$> drop keepCount (sortVideos (getVideos (storage w))) →
    i ∈ VideoMetadata.id <$> getVideos (storage w')).
  { intros i Hi Hnot. rewrite Hvs.
    rewrite <- (sortVideos_perm (getVideos (storage w))) in Hi.
    rewrite <- (take_drop keepCount (sortVideos (getVideos (storage w)))) in Hi.
    rewrite fmap_app in Hi. by apply elem_of_app in Hi as [?|?]. }
  unfold addsOnly, noOrphans, getVideoBlob. split.
  { intros v Hv. left. rewrite Hvs in Hv.
    apply subseteq_take in Hv. by rewrite sortVideos_perm in Hv. }
  split; [intros i b Hl; left; by eapply lookup_weaken|].
  split; [done|].
  intros [Hob Hoa]. split; intros i Hi.
  - rewrite Hbs, lookup_deleteIds in Hi.
    destruct (decide (i ∈ _)) as [|Hnot]; [by destruct Hi|]. auto.
  - rewrite Has, lookup_deleteIds in Hi.
    destruct (decide (i ∈ _)) as [|Hnot]; [by destruct Hi|]. auto.
Qed.

Lemma storeVideo_list_rejected videoData base64 w :
  quota (setItemCalls w) (storage w)
        (SetVideos (getVideos (storage w) ++ [videoData])) = false →
  storeVideo videoData base64 w
  = (Throw QuotaExceededError,
     mkWorld (storage w) (console w) (S (setItemCalls w)) (S (rejected w))
             (memberWrites w)).
Proof.
  intros Hq. unfold storeVideo, mbind, Eff_bind, bind.
  by rewrite setItem_rejected.
Qed.

(** C1, as the code has it.  When [uploadVideo] fails with its capacity
    error it has written no analytics entry, and it leaves no orphan blob
    and no orphan analytics entry: the analytics object has only entries it
    had before, the one blob that can be new is the payload under the new
    id, and if every blob and every analytics entry belonged to a record
    of the list before the call, so it is after it.  The list is not kept:
    the records that the cleanup evicted are gone, with their blobs and
    their analytics entries, and the new record can be left in the list.
    When no more than three records are stored and both attempts are
    rejected at their first write, the list write, the store is exactly as
    before the call. *)
Theorem failed_upload_leaves_no_orphan_entry id (file : Blob) metadata w w' :
  uploadVideo id file metadata w = (Throw StorageQuotaError, w') →
  let videoData := makeVideoData id metadata in
  let videos := getVideos (storage w) in
  getAllAnalytics (storage w') ⊆ getAllAnalytics (storage w)
  ∧ (∀ i b, getVideoBlob i (storage w') = Some b →
       getVideoBlob i (storage w) = Some b
       ∨ (i = id ∧ blobToBase64 file = Some b))
  ∧ (noOrphans (storage w) → noOrphans (storage w'))
  ∧ (∀ v, v ∈ getVideos (storage w') →
       v ∈ videos ∨ v = VideoMetadata.parsed videoData)
  ∧ ((length videos ≤ 3)%nat →
     quota (setItemCalls w) (storage w) (SetVideos (videos ++ [videoData])) = false →
     quota (S (setItemCalls w)) (storage w) (SetVideos (videos ++ [videoData])) = false →
     storage w' = storage w).
Proof.
  intros Hrun videoData videos.
  assert (Hadds : ∃ base64, blobToBase64 file = Some base64
                  ∧ addsOnly videoData base64 (storage w) (storage w')).
  { apply uploadVideo_inv in Hrun
      as [(_ & [=] & _)|(base64 & Hb & [(_ & [=])|(w1 & H1 & Hrun)])].
    destruct Hrun as [(_ & [=])|(w2 & H2 & [(? & _ & [=] & _)|(w3 & H3 & _ & ->)])].
    exists base64. split; [done|].
    apply (addsOnly_trans _ _ _ (storage w1)); [by eapply storeVideo_addsOnly|].
    apply (addsOnly_trans _ _ _ (storage w2)).
    - exact (cleanupOldVideos_addsOnly _ _ _ _ _ H2).
    - exact (storeVideo_addsOnly _ _ _ _ H3). }
  destruct Hadds as (base64 & Hb64 & Hv & Hb & Ha & Ho).
  split; [done|]. split.
  { intros i b Hi. destruct (Hb i b Hi) as [?|[-> ->]]; auto. }
  split; [done|]. split; [done|].
  intros Hlen Hq1 Hq2. revert Hrun. unfold uploadVideo.
  rewrite Hb64.
  unfold tryCatch, mbind, Eff_bind, bind. fold videoData.
  rewrite storeVideo_list_rejected by done. simpl.
  rewrite cleanupOldVideos_small by done.
  rewrite storeVideo_list_rejected by done. simpl.
  by intros [= <-].
Qed.

(** *** Eviction under pressure *)




End Properties.

(** ** Under a size quota *)

Lemma usage_reads s s' :
  getVideos s' = getVideos s →
  blobItems s' = blobItems s →
  getAllAnalytics s' = getAllAnalytics s →
  usage s' = usage s.
Proof.
  assert (Hchars : ∀ l : list VideoMetadata.t,
    foldr (λ v n, metadataChars v + n)%nat 0%nat l
    = foldr (λ v n, metadataChars v + n)%nat 0%nat (VideoMetadata.parsed <$> l)).
  { induction l as [|v l IH]; [done|]. rewrite fmap_cons. simpl. by rewrite IH. }
  unfold usage, getVideos, getAllAnalytics. intros Hv -> ->.
  by rewrite (Hchars (default [] (videosItem s'))), Hv, <- Hchars.
Qed.

(** A browser with a size quota takes the two write-backs of a [deleteVideo]
    whose target is unknown, whenever the store is within the quota: the
    call returns. *)
Lemma deleteVideo_absent_sized capacity id w :
  (usage (storage w) ≤ capacity)%nat →
  getVideo id (storage w) = None →
  getVideoBlob id (storage w) = None →
  getAllAnalytics (storage w) !! id = None →
  ∃ w', @deleteVideo (sizedHost capacity) id w = (Return tt, w').
Proof.
  intros Hfits Hv Hb Ha.
  destruct (@deleteVideo_absent_outcome (sizedHost capacity) id w Hv) as [w' Hrun].
  exists w'. rewrite Hrun. f_equal.
  assert (Hq : ∀ n s wr,
    usage (applyWrite wr s) = usage (storage w) →
    @quota (sizedHost capacity) n s wr = true).
  { intros n s wr Hu. simpl. apply Nat.leb_le. by rewrite Hu. }
  rewrite !Hq; [done|..]; apply usage_reads;
    rewrite ?getAllAnalytics_applyWrite, ?blobItems_applyWrite, ?getVideos_applyWrite,
      ?getAllAnalytics_removeBlob, ?blobItems_removeBlob, ?getVideos_removeBlob,
      ?blobItems_applyWrite, ?getVideos_applyWrite;
    try reflexivity;
    try (apply parsed_fixed, getVideos_fixed); by apply delete_id.
Qed.

(** ** The scenarios, run *)

(** The failing upload of C1: with four recordings stored under a quota of
    1200 characters, a fifth one of 900 characters of payload has its list
    write accepted and its blob write rejected, twice.  The call fails with
    the capacity error, the two oldest recordings are gone, and the list
    holds the metadata of the new one, which has no blob. *)
Lemma oversized_upload_run :
  let w := fourStored in
  let rw := sizedUpload 5 900 w in
  rw.1 = Throw StorageQuotaError
  ∧ VideoMetadata.id <$> getVideos (storage w) = [nthId 1; nthId 2; nthId 3; nthId 4]
  ∧ VideoMetadata.id <$> getVideos (storage rw.2)
    = [nthId 5; nthId 4; nthId 3; nthId 5]
  ∧ getVideoBlob (nthId 1) (storage w) = Some (dataUrl 100)
  ∧ getVideoBlob (nthId 1) (storage rw.2) = None
  ∧ is_Some (getAnalytics (nthId 1) w)
  ∧ getAnalytics (nthId 1) rw.2 = None
  ∧ getVideoBlob (nthId 5) (storage rw.2) = None
  ∧ getAnalytics (nthId 5) rw.2 = None.
Proof. repeat split; try (vm_compute; reflexivity); vm_compute; eexists; reflexivity. Qed.

(** C1 fails on the code: a call that fails with the capacity error can
    leave the evictions of its cleanup and the metadata of the new record
    behind. *)
Lemma failed_upload_changes_store :
  ¬ @noPartialWrite (sizedHost 1200) (nthId 5) (dataUrl 900) (recording 5) fourStored.
Proof.
  intros Hclaim.
  assert (Hrun : @uploadVideo (sizedHost 1200) (nthId 5) (dataUrl 900)
                   (recording 5) fourStored
                 = (Throw StorageQuotaError, (sizedUpload 5 900 fourStored).2))
    by (vm_compute; reflexivity).
  apply Hclaim in Hrun as (Hv & _).
  apply (f_equal (fmap VideoMetadata.id)) in Hv. vm_compute in Hv. discriminate Hv.
Qed.

(** The same store and a fifth recording as small as the others: the list
    write of the first attempt is accepted, the blob write is rejected, the
    cleanup then counts the new record among the three it keeps and evicts
    two of the four older ones, and the retry appends the new record a
    second time. *)
Lemma blob_rejected_upload_run :
  let w := fourStored in
  let rw := sizedUpload 5 100 w in
  returned rw.1 = true
  ∧ VideoMetadata.id <$> getVideos (storage rw.2)
    = [nthId 5; nthId 4; nthId 3; nthId 5]
  ∧ getVideoBlob (nthId 2) (storage rw.2) = None
  ∧ getAnalytics (nthId 2) rw.2 = None.
Proof. repeat split; vm_compute; reflexivity. Qed.

(** The five pressured uploads of C2: every call returns, every call had
    one write rejected, and at the end four records are stored; only the
    oldest one was evicted. *)
Lemma five_pressured_run :
  let rw := fivePressured in
  forallb returned rw.1 = true
  ∧ rejected rw.2 = 5%nat
  ∧ console rw.2
    = [WarnQuotaExceeded; LogUploadedAfterCleanup;
       WarnQuotaExceeded; LogUploadedAfterCleanup;
       WarnQuotaExceeded; LogUploadedAfterCleanup;
       WarnQuotaExceeded; LogUploadedAfterCleanup;
       WarnQuotaExceeded; LogDeleting 1; LogKept 3; LogUploadedAfterCleanup]
  ∧ VideoMetadata.id <$> getVideos (storage rw.2)
    = [nthId 4; nthId 3; nthId 2; nthId 5]
  ∧ getVideo (nthId 1) (storage rw.2) = None
  ∧ getVideoBlob (nthId 1) (storage rw.2) = None
  ∧ getAnalytics (nthId 1) rw.2 = None
  ∧ getVideoBlob (nthId 2) (storage rw.2) = Some (dataUrl 4)
  ∧ getAnalytics (nthId 2) rw.2 = Some (Own (zeroAnalytics (nthId 2))).
Proof. repeat split; vm_compute; reflexivity. Qed.

(** Uploads under pressure that list a record twice: the first upload has
    its blob write rejected and its retry pushes the record again; the
    fourth has its list write rejected, and its cleanup keeps one of the
    two records of the first recording and evicts the other, with the blob
    and the analytics entry that the two share. *)
Lemma twice_listed_run :
  let w := threeTwiceListed.2 in
  let rw := twiceListedUpload 4 w in
  forallb returned threeTwiceListed.1 = true
  ∧ rejected w = 3%nat
  ∧ VideoMetadata.id <$> getVideos (storage w) = [nthId 1; nthId 1; nthId 2; nthId 3]
  ∧ returned rw.1 = true
  ∧ rejected rw.2 = 4%nat
  ∧ VideoMetadata.id <$> getVideos (storage rw.2)
    = [nthId 3; nthId 2; nthId 1; nthId 4]
  ∧ getVideoBlob (nthId 1) (storage rw.2) = None
  ∧ getAnalytics (nthId 1) rw.2 = None.
Proof. repeat split; vm_compute; reflexivity. Qed.

(** An upload under pressure into a store with a record whose [createdAt]
    is not a date: the cleanup keeps the oldest recording and the undated
    one, and evicts the third. *)
Lemma undated_upload_run :
  let rw := @uploadVideo listRejectedHost (nthId 5) (dataUrl 4) (recording 5)
              undatedStored in
  VideoMetadata.id <$> getVideos (storage undatedStored)
  = [nthId 1; nthId 2; nthId 3; nthId 4]
  ∧ returned rw.1 = true
  ∧ rejected rw.2 = S (rejected undatedStored)
  ∧ VideoMetadata.id <$> getVideos (storage rw.2)
    = [nthId 1; nthId 2; nthId 4; nthId 5].
Proof. repeat split; vm_compute; reflexivity. Qed.


(** C3 fails on the code: a recording whose duration is [Infinity] is read
    back with [null] for its duration, and a record uploaded under an id
    that is stored already is not the one that [getVideo] finds. *)
Lemma upload_does_not_round_trip :
  ¬ @roundTrips unlimitedHost (nthId 3) (dataUrl 4) (unmeasured 3) twoStored
  ∧ ¬ @roundTrips unlimitedHost (nthId 1) (dataUrl 4) trimmed twoStored.
Proof.
  split; intros Hclaim.
  - destruct (Hclaim (makeVideoData (nthId 3) (unmeasured 3))
                (@uploadVideo unlimitedHost (nthId 3) (dataUrl 4) (unmeasured 3)
                   twoStored).2) as [Hget _].
    { vm_compute. reflexivity. }
    vm_compute in Hget. discriminate.
  - destruct (Hclaim (makeVideoData (nthId 1) trimmed)
                (@uploadVideo unlimitedHost (nthId 1) (dataUrl 4) trimmed
                   twoStored).2) as [Hget _].
    { vm_compute. reflexivity. }
    vm_compute in Hget. discriminate.
Qed.

(** A view counted on [__proto__] returns, leaves the store as it was and
    a [lastViewed] on the prototype, which a lookup then finds. *)
Lemma prototype_view_run :
  @incrementView unlimitedHost "2024-03-03T12:00:00.000Z" "__proto__" twoStored
  = (Return tt, prototypeViewed)
  ∧ getAllAnalytics (storage prototypeViewed) = getAllAnalytics (storage twoStored)
  ∧ memberWrites prototypeViewed = [("__proto__", "2024-03-03T12:00:00.000Z")]
  ∧ getAnalytics "lastViewed" twoStored = None
  ∧ getAnalytics "lastViewed" prototypeViewed
    = Some (Stray "2024-03-03T12:00:00.000Z").
Proof. repeat split; vm_compute; reflexivity. Qed.



(** C8 fails on the code: [recordCompletion] passes the rejection of a full
    store on to its caller, and [uploadVideo] does so without a retry when
    the rejected write is one of the cleanup. *)
Lemma capacity_errors_elsewhere :
  ¬ @capacityErrorOnlyFromUpload (sizedHost 308)
  ∧ ¬ @capacityErrorOnlyAfterRetry cleanupRejectedHost.
Proof.
  split; intros Hclaim.
  - destruct Hclaim as (_ & _ & Hcompletion).
    specialize (Hcompletion "2024-03-03T12:00:00.000Z" (nthId 1) 50%Q 6%Q twoStored
                  QuotaExceededError
                  (@recordCompletion (sizedHost 308) "2024-03-03T12:00:00.000Z"
                     (nthId 1) 50%Q 6%Q twoStored).2).
    discriminate Hcompletion. vm_compute. reflexivity.
  - destruct (Hclaim (nthId 5) (dataUrl 4) (recording 5) fourStored
                QuotaExceededError
                (@uploadVideo cleanupRejectedHost (nthId 5) (dataUrl 4)
                   (recording 5) fourStored).2)
      as (base64 & w1 & w2 & w3 & Hb & H1 & H2 & _); [vm_compute; reflexivity|done|].
    vm_compute in Hb. injection Hb as <-.
    vm_compute in H1. injection H1 as <-.
    vm_compute in H2. discriminate.
Qed.

(** ** The theorems at work *)

Lemma failed_upload_leaves_no_orphan_entry_witness :
  let w' := (sizedUpload 5 900 fourStored).2 in
  sizedUpload 5 900 fourStored = (Throw StorageQuotaError, w')
  ∧ getAllAnalytics (storage w') ⊆ getAllAnalytics (storage fourStored)
  ∧ (∀ i b, getVideoBlob i (storage w') = Some b →
       getVideoBlob i (storage fourStored) = Some b
       ∨ (i = nthId 5 ∧ Some (dataUrl 900) = Some b))
  ∧ (noOrphans (storage fourStored) → noOrphans (storage w'))
  ∧ (∀ v, v ∈ getVideos (storage w') →
       v ∈ getVideos (storage fourStored)
       ∨ v = VideoMetadata.parsed (makeVideoData (nthId 5) (recording 5))).
Proof.
  intros w'.
  assert (Hrun : @uploadVideo (sizedHost 1200) (nthId 5) (dataUrl 900) (recording 5)
                   fourStored = (Throw StorageQuotaError, w'))
    by (vm_compute; reflexivity).
  split; [exact Hrun|].
  destruct (@failed_upload_leaves_no_orphan_entry (sizedHost 1200) _ _ _ _ _ Hrun)
    as (Ha & Hb & Ho & Hv & _).
  split; [exact Ha|]. split; [exact Hb|]. split; [exact Ho|exact Hv].
Defined.


Lemma upload_round_trip_witness :
  let videoData := makeVideoData (nthId 3) (recording 3) in
  let w' := (unlimitedUpload 3 twoStored).2 in
  getVideo (nthId 3) (storage twoStored) = None
  ∧ unlimitedUpload 3 twoStored = (Return videoData, w')
  ∧ getVideo (nthId 3) (storage w') = Some videoData
  ∧ getVideoBlob (nthId 3) (storage w') = Some (dataUrl 4).
Proof.
  intros videoData w'.
  assert (Hfresh : getVideo (nthId 3) (storage twoStored) = None)
    by (vm_compute; reflexivity).
  assert (Hrun : @uploadVideo unlimitedHost (nthId 3) (dataUrl 4) (recording 3)
                   twoStored = (Return videoData, w'))
    by (vm_compute; reflexivity).
  split; [exact Hfresh|]. split; [exact Hrun|].
  destruct (@upload_round_trip unlimitedHost _ _ _ _ _ _ Hrun) as [Hblob Hget].
  split; [|exact Hblob].
  exact (proj2 (Hget Hfresh) eq_refl eq_refl).
Defined.





Lemma analytics_zero_initialized_witness :
  let videoData := makeVideoData (nthId 3) (recording 3) in
  let w' := (unlimitedUpload 3 twoStored).2 in
  unlimitedUpload 3 twoStored = (Return videoData, w')
  ∧ getAnalytics (nthId 3) w' = Some (Own (zeroAnalytics (nthId 3))).
Proof.
  intros videoData w'.
  assert (Hrun : @uploadVideo unlimitedHost (nthId 3) (dataUrl 4) (recording 3)
                   twoStored = (Return videoData, w'))
    by (vm_compute; reflexivity).
  split; [exact Hrun|].
  exact (proj1 (@analytics_zero_initialized unlimitedHost _ _ _ _ _ _ Hrun)).
Defined.

Lemma mutations_isolated_witness :
  nthId 1 ≠ nthId 2
  ∧ ∀ r w',
      @deleteVideo unlimitedHost (nthId 1) twoStored = (r, w') →
      getVideo (nthId 2) (storage w') = getVideo (nthId 2) (storage twoStored)
      ∧ getVideoBlob (nthId 2) (storage w') = getVideoBlob (nthId 2) (storage twoStored)
      ∧ getAllAnalytics (storage w') !! nthId 2
        = getAllAnalytics (storage twoStored) !! nthId 2
      ∧ getAnalytics (nthId 2) w' = getAnalytics (nthId 2) twoStored.
Proof.
  assert (Hne : nthId 1 ≠ nthId 2) by discriminate.
  split; [exact Hne|].
  exact (proj1 (proj2 (proj2
    (@mutations_isolated unlimitedHost _ _ "2024-03-03T12:00:00.000Z"
       50%Q 6%Q twoStored Hne)))).
Defined.

Lemma capacity_error_discipline_witness :
  let w' := (sizedUpload 5 900 fourStored).2 in
  sizedUpload 5 900 fourStored = (Throw StorageQuotaError, w')
  ∧ ∃ base64 w1 w2 w3,
      @blobToBase64 (sizedHost 1200) (dataUrl 900) = Some base64
      ∧ @storeVideo (sizedHost 1200) (makeVideoData (nthId 5) (recording 5)) base64
          fourStored = (Throw QuotaExceededError, w1)
      ∧ @cleanupOldVideos (sizedHost 1200) 3 (logged WarnQuotaExceeded w1)
        = (Return tt, w2)
      ∧ @storeVideo (sizedHost 1200) (makeVideoData (nthId 5) (recording 5)) base64 w2
        = (Throw QuotaExceededError, w3)
      ∧ w' = logged ErrorStillNoSpace w3
      ∧ rejected w' = (rejected fourStored + 2)%nat.
Proof.
  intros w'.
  assert (Hrun : @uploadVideo (sizedHost 1200) (nthId 5) (dataUrl 900) (recording 5)
                   fourStored = (Throw StorageQuotaError, w'))
    by (vm_compute; reflexivity).
  split; [exact Hrun|].
  exact (proj1 (proj2 (proj1 (proj2 (proj2 (proj2 (@capacity_error_discipline
           (sizedHost 1200))))) _ _ _ _ _ _ Hrun)) eq_refl).
Defined.
(** ** Further properties of the service *)

Section ServiceProperties.
Context `{Host}.

Implicit Types (w : World) (s : Storage) (id videoId now : string).

Create Rewrite HintDb reads.
#[local] Hint Rewrite getVideos_applyWrite blobItems_applyWrite getAllAnalytics_applyWrite
  getVideos_removeBlob blobItems_removeBlob getAllAnalytics_removeBlob : reads.

(** *** The cleanup *)

(** X1. A [cleanupOldVideos keepCount] that returns leaves
    [min n keepCount] of the [n] stored records, and a second cleanup
    right after it returns at once and changes nothing. *)
Theorem cleanupOldVideos_settles keepCount w w1 :
  cleanupOldVideos keepCount w = (Return tt, w1) →
  length (getVideos (storage w1))
  = (length (getVideos (storage w)) `min` keepCount)%nat
  ∧ cleanupOldVideos keepCount w1 = (Return tt, w1).
Proof.
  intros Hrun.
  assert (Hlen : length (getVideos (storage w1))
                 = (length (getVideos (storage w)) `min` keepCount)%nat).
  { apply cleanupOldVideos_inv in Hrun
      as [(Hle & _ & ->)|(Hgt & _ & _ & [([=] & _)|(_ & -> & _)])]; [lia|].
    rewrite length_take, (Permutation_length (sortVideos_perm _)). lia. }
  split; [done|]. apply cleanupOldVideos_small. lia.
Qed.

(** *** Computations that keep a property of the store *)









(** *** Well-formed analytics *)




Lemma analyticsOk_other_write wr s :
  match wr with SetAnalytics _ => False | _ => True end →
  analyticsOk s → analyticsOk (applyWrite wr s).
Proof. by destruct wr. Qed.










(** *** Uploads that meet no rejection, and uploads into a small store *)

(** An upload that returns without a rejected write took the direct path:
    one [storeVideo], accepted as a whole, and nothing on the console. *)
Lemma uploadVideo_unpressured id (file : Blob) metadata w videoData w' :
  uploadVideo id file metadata w = (Return videoData, w') →
  rejected w' = rejected w →
  videoData = makeVideoData id metadata
  ∧ console w' = console w
  ∧ ∃ base64, blobToBase64 file = Some base64
      ∧ StoreVideoOutcome videoData base64 (storage w) (Return tt) (storage w').
Proof.
  intros Hrun Hrej.
  apply uploadVideo_inv in Hrun
    as [(_ & [=] & _)|(base64 & Hb & [(H1 & [= ->])|(w1 & H1 & Hrun)])].
  { apply storeVideo_inv in H1 as [Ho Hc]. eauto. }
  exfalso.
  apply stops_storeVideo in H1 as [([? [=]] & _)|(_ & Hr1)].
  destruct Hrun as [(_ & [=])|(w2 & H2 & [(w3 & H3 & _ & ->)|(? & _ & [=] & _)])].
  apply stops_cleanupOldVideos in H2 as [(_ & Hr2)|([=] & _)].
  apply stops_storeVideo in H3 as [(_ & Hr3)|([=] & _)].
  simpl in Hrej, Hr2. lia.
Qed.

Lemma storeVideo_list_accepted videoData base64 w r w1 :
  quota (setItemCalls w) (storage w)
        (SetVideos (getVideos (storage w) ++ [videoData])) = true →
  storeVideo videoData base64 w = (r, w1) →
  getVideos (storage w1) = getVideos (storage w) ++ [VideoMetadata.parsed videoData].
Proof.
  intros Hq. rewrite <- getVideos_appended.
  unfold storeVideo, mbind, Eff_bind, bind.
  rewrite setItem_accepted by done.
  unfold initializeAnalytics, setItem. simpl.
  repeat destruct (quota _ _ _); by intros [= <- <-].
Qed.

(** Whatever its outcome, [storeVideo] leaves the stored records in the
    list and the entries of the other ids as they are. *)
Lemma storeVideo_frame videoData base64 w r w' :
  storeVideo videoData base64 w = (r, w') →
  (∀ v, v ∈ getVideos (storage w) → v ∈ getVideos (storage w'))
  ∧ ∀ i, i ≠ VideoMetadata.id videoData →
      getVideoBlob i (storage w') = getVideoBlob i (storage w)
      ∧ getAnalytics i w' = getAnalytics i w.
Proof.
  intros Hrun. pose proof (leaves_storeVideo _ _ _ _ _ Hrun) as Hm.
  apply storeVideo_inv in Hrun as [Ho _].
  assert (Hreads :
    (∀ v, v ∈ getVideos (storage w) → v ∈ getVideos (storage w'))
    ∧ ∀ i, i ≠ VideoMetadata.id videoData →
        getVideoBlob i (storage w') = getVideoBlob i (storage w)
        ∧ getAllAnalytics (storage w') !! i = getAllAnalytics (storage w) !! i).
  { revert Ho. generalize (storage w) (storage w'). intros s s' Ho.
    destruct Ho; (split; [intros v Hv|intros i Hi; split]);
      unfold getVideoBlob; autorewrite with reads;
      rewrite ?getVideos_appended, ?lookup_insert_ne by done;
      try done; apply elem_of_app; by left. }
  destruct Hreads as [Hv Hf]. split; [done|]. intros i Hi.
  destruct (Hf i Hi) as [Hb Ha]. split; [done|].
  apply getAnalytics_same; [done|]. by rewrite Hm.
Qed.

(** X5. An upload evicts nothing unless a write was rejected and three or
    more records are in the list by then: when no write of the call is
    rejected, or when at most two records are stored before it, every stored
    record stays in the list and every other id keeps its blob and its
    analytics, whatever the outcome of the call. *)
Theorem upload_keeps_others id (file : Blob) metadata w r w' :
  uploadVideo id file metadata w = (r, w') →
  rejected w' = rejected w ∨ (length (getVideos (storage w)) ≤ 2)%nat →
  (∀ v, v ∈ getVideos (storage w) → v ∈ getVideos (storage w'))
  ∧ ∀ i, i ≠ id →
      getVideoBlob i (storage w') = getVideoBlob i (storage w)
      ∧ getAnalytics i w' = getAnalytics i w.
Proof.
  intros Hrun Hcase.
  apply uploadVideo_inv in Hrun
    as [(_ & _ & ->)|(base64 & Hb & [(H1 & _)|(w1 & H1 & Hrun)])]; [done|..].
  { by apply storeVideo_frame in H1. }
  pose proof (stops_storeVideo _ _ _ _ _ H1) as [([? [=]] & _)|(_ & Hr1)].
  assert (Hlen : (length (getVideos (storage w)) ≤ 2)%nat).
  { destruct Hcase as [Hrej|?]; [exfalso|done].
    destruct Hrun as [(H2 & _)|(w2 & H2 & [(w3 & H3 & _ & ->)|(w3 & H3 & _ & ->)])].
    - apply stops_cleanupOldVideos in H2 as [([? [=]] & _)|(_ & Hr2)].
      simpl in Hr2. lia.
    - apply stops_cleanupOldVideos in H2 as [(_ & Hr2)|([=] & _)].
      apply stops_storeVideo in H3 as [(_ & Hr3)|([=] & _)].
      simpl in Hrej, Hr2. lia.
    - apply stops_cleanupOldVideos in H2 as [(_ & Hr2)|([=] & _)].
      apply stops_storeVideo in H3 as [([? [=]] & _)|(_ & Hr3)].
      simpl in Hrej, Hr2. lia. }
  pose proof (storeVideo_inv _ _ _ _ _ H1) as [Ho1 _].
  apply rejected_reads in Ho1 as (Hv1 & _).
  assert (Hsmall : (length (getVideos (storage (logged WarnQuotaExceeded w1))) ≤ 3)%nat).
  { simpl. destruct Hv1 as [-> | ->]; [lia|]. rewrite length_app. simpl. lia. }
  rewrite (cleanupOldVideos_small _ _ Hsmall) in Hrun.
  apply storeVideo_frame in H1 as [Hv Hf].
  destruct Hrun as [([=] & _)|(w2 & [= <-] & Hrun)].
  destruct Hrun as [(w3 & H3 & _ & ->)|(w3 & H3 & _ & ->)];
    apply storeVideo_frame in H3 as [Hv3 Hf3]; simpl in *;
    (split; [by auto|]); intros i Hi;
    destruct (Hf i Hi) as [<- <-]; by apply Hf3.
Qed.

(** X6. The retry stores a record that the first attempt had already put in
    the list a second time: when at most two records are stored, the list
    write of the first attempt is accepted, a later write is rejected and
    the call returns after the cleanup, the list that is read back ends
    with the new record twice. *)
Theorem retry_appends_twice id (file : Blob) metadata w videoData w' :
  (length (getVideos (storage w)) ≤ 2)%nat →
  quota (setItemCalls w) (storage w)
        (SetVideos (getVideos (storage w) ++ [makeVideoData id metadata])) = true →
  uploadVideo id file metadata w = (Return videoData, w') →
  rejected w' ≠ rejected w →
  getVideos (storage w')
  = getVideos (storage w)
    ++ [VideoMetadata.parsed videoData; VideoMetadata.parsed videoData].
Proof.
  intros Hlen Hq Hrun Hrej.
  apply uploadVideo_inv in Hrun
    as [(_ & [=] & _)|(base64 & Hb & [(H1 & [= ->])|(w1 & H1 & Hrun)])].
  { apply stops_storeVideo in H1 as [(_ & Hr1)|([=] & _)]. done. }
  pose proof (storeVideo_list_accepted _ _ _ _ _ Hq H1) as Hv1.
  assert (Hsmall : (length (getVideos (storage (logged WarnQuotaExceeded w1))) ≤ 3)%nat).
  { simpl. rewrite Hv1, length_app. simpl. lia. }
  rewrite (cleanupOldVideos_small _ _ Hsmall) in Hrun.
  destruct Hrun as [([=] & _)|(w2 & [= <-] & Hrun)].
  destruct Hrun as [(w3 & H3 & [= ->] & ->)|(? & _ & [=] & _)].
  apply storeVideo_inv in H3 as [Ho3 _].
  apply stored_reads in Ho3 as (Hv3 & _).
  simpl in *. rewrite Hv3, Hv1, <- app_assoc. done.
Qed.

(** *** Upload, then delete *)

Lemma filter_app_last id (l : list VideoMetadata.t) videoData :
  VideoMetadata.id videoData = id →
  List.filter (λ v, negb (String.eqb (VideoMetadata.id v) id)) (l ++ [videoData])
  = List.filter (λ v, negb (String.eqb (VideoMetadata.id v) id)) l.
Proof.
  intros Hid. rewrite List.filter_app. simpl.
  rewrite (proj2 (String.eqb_eq _ _) Hid). simpl. apply app_nil_r.
Qed.

(** X7. Deleting undoes an upload: when the id is new to the store, the
    upload meets no rejection and the [deleteVideo] of the returned id
    returns, the video list, the blobs and the analytics map are what they
    were before the upload. *)
Theorem upload_then_delete id (file : Blob) metadata w videoData w1 w2 :
  getVideo id (storage w) = None →
  getVideoBlob id (storage w) = None →
  getAnalytics id w = None →
  uploadVideo id file metadata w = (Return videoData, w1) →
  rejected w1 = rejected w →
  deleteVideo (VideoMetadata.id videoData) w1 = (Return tt, w2) →
  getVideos (storage w2) = getVideos (storage w)
  ∧ blobItems (storage w2) = blobItems (storage w)
  ∧ getAllAnalytics (storage w2) = getAllAnalytics (storage w).
Proof.
  unfold getVideo, getVideoBlob. intros Hv Hb [Ha _]%getAnalytics_None Hup Hrej Hdel.
  apply uploadVideo_unpressured in Hup as (-> & _ & base64 & _ & Ho); [|done].
  apply stored_reads in Ho as (Hv1 & Hb1 & Ha1). simpl in *.
  apply deleteVideo_inv in Hdel as [([=] & _)|[([=] & _)|(_ & ->)]].
  autorewrite with reads. rewrite filter_fixed, Hv1, Hb1, Ha1.
  rewrite filter_app_last by done. rewrite filter_absent by done.
  by rewrite !delete_insert_id.
Qed.

(** X8. Deleting twice is deleting once: after a [deleteVideo] that
    returned, a second [deleteVideo] of the same id leaves the video list,
    the blobs and the analytics map as the first one left them, whatever its
    outcome. *)
Theorem deleteVideo_twice id w w1 r w2 :
  deleteVideo id w = (Return tt, w1) →
  deleteVideo id w1 = (r, w2) →
  getVideos (storage w2) = getVideos (storage w1)
  ∧ blobItems (storage w2) = blobItems (storage w1)
  ∧ getAllAnalytics (storage w2) = getAllAnalytics (storage w1).
Proof.
  intros H1 H2.
  apply deleteVideo_inv in H1 as [([=] & _)|[([=] & _)|(_ & Hs1)]].
  apply (deleteVideo_absent_unchanged id w1 r w2); [..|done];
    unfold getVideo, getVideoBlob; rewrite Hs1;
    autorewrite with reads.
  - rewrite filter_fixed. apply find_filter_same.
  - apply lookup_delete_eq.
  - apply lookup_delete_eq.
Qed.

(** *** Views and completions *)

(** X9. Counting a view and recording a completion commute: on the same
    store, the two calls made in either order, all of them returning, leave
    the same store. *)
Theorem view_and_completion_commute now1 now2 videoId (p d : Q) w w1 w2 u1 u2 :
  incrementView now1 videoId w = (Return tt, w1) →
  recordCompletion now2 videoId p d w1 = (Return tt, w2) →
  recordCompletion now2 videoId p d w = (Return tt, u1) →
  incrementView now1 videoId u1 = (Return tt, u2) →
  storage w2 = storage u2.
Proof.
  intros Hw1 Hw2 Hu1 Hu2.
  destruct (lookup_cases videoId w) as [[a Ha]|[[Ha Hin]|[[Ha [v Hin]]|[Ha Hin]]]].
  - pose proof (incrementView_returned _ _ _ _ _ (proj2 (getAnalytics_own _ _ _) Ha) Hw1)
      as Ha1%getAnalytics_own.
    pose proof (recordCompletion_returned _ _ _ _ _ _ _
                  (proj2 (getAnalytics_own _ _ _) Ha) Hu1) as Hb1%getAnalytics_own.
    rewrite incrementView_update in Hw1, Hu2 by eauto.
    rewrite recordCompletion_update in Hw2, Hu1 by eauto.
    eapply updateAnalytics_inv in Hw1 as [([=] & _)|(_ & Hs1)]; [|done].
    eapply updateAnalytics_inv in Hu1 as [([=] & _)|(_ & Ht1)]; [|done].
    eapply updateAnalytics_inv in Hw2 as [([=] & _)|(_ & ->)]; [|done].
    eapply updateAnalytics_inv in Hu2 as [([=] & _)|(_ & ->)]; [|done].
    rewrite Hs1, Ht1. autorewrite with reads. simpl.
    by rewrite !insert_insert_eq.
  - rewrite recordCompletion_inherited in Hu1
      by (by rewrite ?inheritedProperty_member).
    discriminate.
  - rewrite recordCompletion_inherited in Hu1 by (by rewrite ?Hin). discriminate.
  - rewrite incrementView_update in Hw1 by eauto.
    rewrite updateAnalytics_absent in Hw1 by done. injection Hw1 as <-.
    rewrite recordCompletion_update in Hw2, Hu1 by eauto.
    rewrite updateAnalytics_absent in Hu1 by done. injection Hu1 as <-.
    rewrite incrementView_update in Hu2 by eauto.
    rewrite updateAnalytics_absent in Hw2 by done. injection Hw2 as <-.
    rewrite updateAnalytics_absent in Hu2 by done. by injection Hu2 as <-.
Qed.

(** *** Consistency of the three collections *)

Lemma elem_of_ids_filter id x (l : list VideoMetadata.t) :
  x ∈ VideoMetadata.id
        <$> List.filter (λ v, negb (String.eqb (VideoMetadata.id v) id)) l
  ↔ x ∈ VideoMetadata.id <$> l ∧ x ≠ id.
Proof.
  induction l as [|v l IH]; simpl.
  - split; [by intros ?%elem_of_nil|by intros [?%elem_of_nil _]].
  - destruct (String.eqb (VideoMetadata.id v) id) eqn:E; simpl.
    + apply String.eqb_eq in E. rewrite IH, elem_of_cons.
      split; [tauto|]. intros [[Hx|Hx] Hne]; [congruence|done].
    + apply String.eqb_neq in E. rewrite !elem_of_cons, IH.
      split; [|tauto]. intros [Hx|[Hx Hne]]; [|tauto].
      split; [by left|congruence].
Qed.

Lemma NoDup_ids_filter id (l : list VideoMetadata.t) :
  NoDup (VideoMetadata.id <$> l) →
  NoDup (VideoMetadata.id
           <$> List.filter (λ v, negb (String.eqb (VideoMetadata.id v) id)) l).
Proof.
  induction l as [|v l IH]; simpl; [done|].
  intros [Hv Hl]%NoDup_cons.
  destruct (negb _); simpl; [|by apply IH].
  apply NoDup_cons. split; [|by apply IH].
  intros Hin. apply elem_of_ids_filter in Hin as [? _]. done.
Qed.

Lemma dom_deleteIds {V} ids (m : gmap string V) :
  dom (deleteIds ids m) = dom m ∖ list_to_set ids.
Proof.
  apply set_eq. intros i.
  rewrite elem_of_difference, elem_of_list_to_set, !elem_of_dom, lookup_deleteIds.
  destruct (decide (i ∈ ids)) as [Hin|Hnin]; [|tauto].
  split; [by intros [? ?]|tauto].
Qed.

(** X10. The calls that meet no rejection keep the three collections
    consistent (no id listed twice; the ids with a blob and the ids with
    an analytics entry are the listed ids): an upload under a new id that
    returns without a rejected write, a [deleteVideo] and a
    [cleanupOldVideos] that return, and [incrementView] and
    [recordCompletion] whatever their outcome. *)
Theorem consistency_kept w :
  consistent (storage w) →
  (∀ id (file : Blob) metadata videoData w',
     id ∉ storedIds (storage w) →
     uploadVideo id file metadata w = (Return videoData, w') →
     rejected w' = rejected w →
     consistent (storage w'))
  ∧ (∀ id w', deleteVideo id w = (Return tt, w') → consistent (storage w'))
  ∧ (∀ keepCount w',
       cleanupOldVideos keepCount w = (Return tt, w') → consistent (storage w'))
  ∧ (∀ now videoId r w',
       incrementView now videoId w = (r, w') → consistent (storage w'))
  ∧ (∀ now videoId (p d : Q) r w',
       recordCompletion now videoId p d w = (r, w') → consistent (storage w')).
Proof.
  unfold consistent, storedIds. intros (Hnd & Hblobs & Hanalytics).
  assert (Hupdate : ∀ f videoId r w',
    updateAnalytics f videoId w = (r, w') →
    NoDup (VideoMetadata.id <$> getVideos (storage w'))
    ∧ dom (blobItems (storage w'))
      = (list_to_set (VideoMetadata.id <$> getVideos (storage w')) : gset string)
    ∧ dom (getAllAnalytics (storage w'))
      = (list_to_set (VideoMetadata.id <$> getVideos (storage w')) : gset string)).
  { intros f videoId r w' Hrun.
    pose proof (updateAnalytics_frame _ _ _ _ _ Hrun) as (Hv & Hb & _).
    rewrite Hv, Hb. split; [done|]. split; [done|].
    destruct (getAllAnalytics (storage w) !! videoId) as [a|] eqn:Ha.
    - eapply updateAnalytics_inv in Hrun as [(_ & ->)|(_ & ->)]; [done| |done].
      autorewrite with reads. rewrite dom_insert_lookup_L; [done|]. by exists a.
    - rewrite updateAnalytics_absent in Hrun by done. by injection Hrun as <- <-. }
  split; [|split; [|split; [|split]]].
  - intros id file metadata videoData w' Hfresh Hrun Hrej.
    apply uploadVideo_unpressured in Hrun as (-> & _ & base64 & _ & Ho); [|done].
    apply stored_reads in Ho as (-> & -> & ->). simpl.
    rewrite fmap_app. simpl. split; [|split].
    + apply NoDup_app. split; [done|]. split; [|apply NoDup_singleton].
      intros x Hx ->%list_elem_of_singleton. done.
    + rewrite dom_insert_L, list_to_set_app_L, Hblobs. simpl.
      rewrite (right_id_L ∅ (∪)). apply (comm_L (∪)).
    + rewrite dom_insert_L, list_to_set_app_L, Hanalytics. simpl.
      rewrite (right_id_L ∅ (∪)). apply (comm_L (∪)).
  - intros id w' Hrun.
    apply deleteVideo_inv in Hrun as [([=] & _)|[([=] & _)|(_ & ->)]].
    autorewrite with reads. rewrite filter_fixed.
    split; [by apply NoDup_ids_filter|].
    rewrite !dom_delete_L, Hblobs, Hanalytics.
    assert (Hset : (list_to_set (VideoMetadata.id <$> getVideos (storage w))
                     ∖ {[id]} : gset string)
                   = list_to_set
                       (VideoMetadata.id
                          <$> List.filter
                                (λ v, negb (String.eqb (VideoMetadata.id v) id))
                                (getVideos (storage w)))).
    { apply set_eq. intros x.
      rewrite elem_of_difference, !elem_of_list_to_set, elem_of_ids_filter.
      by rewrite elem_of_singleton. }
    by rewrite Hset.
  - intros keepCount w' Hrun.
    apply cleanupOldVideos_inv in Hrun
      as [(_ & _ & ->)|(_ & _ & _ & [([=] & _)|(_ & -> & -> & -> & _)])]; [done|].
    rewrite !dom_deleteIds, Hblobs, Hanalytics.
    pose proof (fmap_Permutation VideoMetadata.id _ _
                  (sortVideos_perm (getVideos (storage w)))) as Hperm.
    rewrite <- (take_drop keepCount (sortVideos (getVideos (storage w)))) in Hperm.
    rewrite fmap_app in Hperm.
    rewrite <- (list_to_set_perm_L _ _ Hperm).
    rewrite <- Hperm in Hnd.
    apply NoDup_app in Hnd as (Hndk & Hdisj & _).
    split; [done|]. rewrite list_to_set_app_L.
    assert (Hset : ((list_to_set
                       (VideoMetadata.id
                          <$> take keepCount (sortVideos (getVideos (storage w))))
                     ∪ list_to_set
                         (VideoMetadata.id
                            <$> drop keepCount (sortVideos (getVideos (storage w)))))
                    ∖ list_to_set
                        (VideoMetadata.id
                           <$> drop keepCount (sortVideos (getVideos (storage w))))
                    : gset string)
                   = list_to_set
                       (VideoMetadata.id
                          <$> take keepCount (sortVideos (getVideos (storage w))))).
    { apply set_eq. intros x.
      rewrite elem_of_difference, elem_of_union, !elem_of_list_to_set.
      specialize (Hdisj x). tauto. }
    by rewrite Hset.
  - intros now videoId r w'.
    destruct (lookup_cases videoId w) as [[a Ha]|[[Ha Hin]|[[Ha [v Hin]]|[Ha Hin]]]].
    + rewrite incrementView_update by eauto. apply Hupdate.
    + rewrite incrementView_inherited by done. intros Hrun.
      apply setItem_inv in Hrun as (_ & _ & [(_ & -> & _)|(_ & -> & _)]); done.
    + rewrite (incrementView_stray _ _ _ _ Ha Hin). by intros [= <- <-].
    + rewrite incrementView_update by eauto. apply Hupdate.
  - intros now videoId p d r w'.
    destruct (getAllAnalytics (storage w) !! videoId) as [a|] eqn:Ha;
      [|destruct (inheritedProperty (memberWrites w) videoId) as [q|] eqn:Hin].
    + rewrite recordCompletion_update by eauto. apply Hupdate.
    + rewrite recordCompletion_inherited by (by rewrite ?Hin). by intros [= <- <-].
    + rewrite recordCompletion_update by eauto. apply Hupdate.
Qed.

End ServiceProperties.

(** ** Properties of the callers *)

(** *** The recorder *)

Lemma pauseAndResume_shifts r (pr : Z * Z) start :
  Recorder.isRecording r = true →
  Recorder.isPaused r = false →
  Recorder.effectiveStartTimeRef r = Some start →
  let r' := Recorder.pauseAndResume r pr in
  Recorder.isRecording r' = true
  ∧ Recorder.isPaused r' = false
  ∧ Recorder.effectiveStartTimeRef r' = Some (start + (pr.2 - pr.1))
  ∧ Recorder.intervalRef r' = Some (start + (pr.2 - pr.1))
  ∧ Recorder.recordingDuration r' = Recorder.recordingDuration r.
Proof.
  intros Hrec Hpaused Hstart.
  unfold Recorder.pauseAndResume, Recorder.pauseRecording.
  rewrite Hrec, Hpaused. simpl. rewrite Hstart. simpl. done.
Qed.

(** X12. The timer leaves the pauses out.  After a start at [t0] and any
    number of pauses, each followed by its resume, the recorder is
    recording, the time it counts from is [t0] plus the time spent paused,
    the next tick shows the whole seconds recorded without the pauses, and
    a [stop] event handled in this state reports that time.  While paused,
    a tick changes nothing. *)
Theorem timer_excludes_pauses (t0 : Z) (pauses : list (Z * Z)) (now : Z) r0 :
  let r := foldl Recorder.pauseAndResume (Recorder.startRecording t0 r0) pauses in
  let recorded := now - t0 - Recorder.pausedTime pauses in
  Recorder.isRecording r = true
  ∧ Recorder.isPaused r = false
  ∧ Recorder.effectiveStartTimeRef r = Some (t0 + Recorder.pausedTime pauses)
  ∧ Recorder.recordingDuration (Recorder.timerTick now r) = recorded / 1000
  ∧ Recorder.onstop (λ _, now) r = (inject_Z recorded / 1000)%Q
  ∧ (∀ clock, Recorder.timerTick now (Recorder.pauseRecording clock r)
              = Recorder.pauseRecording clock r).
Proof.
  intros r recorded.
  assert (Hr : Recorder.isRecording r = true ∧ Recorder.isPaused r = false
               ∧ Recorder.effectiveStartTimeRef r
                 = Some (t0 + Recorder.pausedTime pauses)
               ∧ Recorder.intervalRef r = Some (t0 + Recorder.pausedTime pauses)).
  { unfold r. clear r recorded.
    assert (Hgen : ∀ r1 start,
      Recorder.isRecording r1 = true → Recorder.isPaused r1 = false →
      Recorder.effectiveStartTimeRef r1 = Some start →
      Recorder.intervalRef r1 = Some start →
      let r := foldl Recorder.pauseAndResume r1 pauses in
      Recorder.isRecording r = true ∧ Recorder.isPaused r = false
      ∧ Recorder.effectiveStartTimeRef r = Some (start + Recorder.pausedTime pauses)
      ∧ Recorder.intervalRef r = Some (start + Recorder.pausedTime pauses)).
    { induction pauses as [|pr pauses IH]; intros r1 start Hrec Hp He Hi.
      - simpl. rewrite Z.add_0_r. done.
      - simpl foldl.
        destruct (pauseAndResume_shifts r1 pr start Hrec Hp He)
          as (Hrec' & Hp' & He' & Hi' & _).
        destruct (IH _ _ Hrec' Hp' He' Hi') as (? & ? & He2 & Hi2).
        cbv zeta. rewrite He2, Hi2. simpl Recorder.pausedTime.
        repeat split; try done; f_equal; lia. }
    by apply Hgen. }
  destruct Hr as (Hrec & Hp & He & Hi).
  split; [done|]. split; [done|]. split; [done|]. split; [|split].
  - unfold Recorder.timerTick. rewrite Hi. simpl. unfold recorded. f_equal. lia.
  - unfold Recorder.onstop. rewrite He. simpl. unfold recorded.
    by replace (now - (t0 + Recorder.pausedTime pauses))
      with (now - t0 - Recorder.pausedTime pauses) by lia.
  - intros clock. unfold Recorder.pauseRecording. by rewrite Hrec, Hp.
Qed.

(** X13. A [stop] event that is handled after [stopRecording] has run
    finds the start time cleared: the duration it hands on is the difference
    of two readings of the clock taken one after the other, the first minus
    the second, so it is never positive, whatever was recorded. *)
Theorem stop_event_after_stopRecording (clock : nat → Z) r :
  Recorder.isRecording r = true →
  clock 0%nat ≤ clock 1%nat →
  Recorder.onstop clock (Recorder.stopRecording r)
  = (inject_Z (clock 0%nat - clock 1%nat) / 1000)%Q
  ∧ (Recorder.onstop clock (Recorder.stopRecording r) <= 0)%Q.
Proof.
  intros Hrec Hclock. unfold Recorder.stopRecording, Recorder.onstop.
  rewrite Hrec. simpl. split; [done|].
  apply Qle_shift_div_r; [done|]. rewrite Qmult_0_l.
  change 0%Q with (inject_Z 0). rewrite <- Zle_Qle. lia.
Qed.

(** *** The watch page *)

Section WatchPageProperties.
Context `{Host}.

(** One [loadVideo]: the store is as it was, or the view had not been
    counted, now is, and the store differs by the one view. *)
Lemma loadVideo_counts_once now videoId page w r page' w' :
  loadVideo now videoId page w = (r, page', w') →
  (storage w' = storage w
   ∧ (WatchPage.viewCountedRef page = true → WatchPage.viewCountedRef page' = true))
  ∨ (WatchPage.viewCountedRef page = false
     ∧ WatchPage.viewCountedRef page' = true
     ∧ ((∃ a, getAnalytics videoId w = Some (Own a)
              ∧ storage w'
                = applyWrite
                    (SetAnalytics (<[videoId := viewed now a]>
                                     (getAllAnalytics (storage w))))
                    (storage w))
        ∨ (getAnalytics videoId w = Some (Inherited videoId)
           ∧ storage w'
             = applyWrite (SetAnalytics (getAllAnalytics (storage w))) (storage w)))).
Proof.
  unfold loadVideo.
  destruct (getVideo videoId (storage w)) as [v|]; [|intros [= <- <- <-]; by left].
  destruct (truthy _); [|intros [= <- <- <-]; by left].
  destruct (WatchPage.viewCountedRef page) eqn:Hcounted;
    [intros [= <- <- <-]; by left|].
  destruct (incrementView now videoId w) as [[[]|e] w1] eqn:Hview;
    intros [= <- <- <-].
  - destruct (lookup_cases videoId w) as [[a Ha]|[[Ha Hin]|[[Ha [value Hin]]|[Ha Hin]]]].
    + rewrite incrementView_update in Hview by eauto.
      eapply updateAnalytics_inv in Hview as [([=] & _)|(_ & Hs)]; [|done].
      right. split; [done|]. split; [done|]. left. exists a.
      split; [by apply getAnalytics_own|done].
    + rewrite incrementView_inherited in Hview by done.
      apply setItem_inv in Hview as (_ & _ & [(_ & Hs & _)|([=] & _)]).
      right. split; [done|]. split; [done|]. right.
      split; [by apply getAnalytics_inherited|done].
    + rewrite (incrementView_stray _ _ _ _ Ha Hin) in Hview. discriminate.
    + rewrite incrementView_update, updateAnalytics_absent in Hview by eauto.
      injection Hview as <-. by left.
  - left. split; [|done].
    destruct (lookup_cases videoId w) as [[a Ha]|[[Ha Hin]|[[Ha [value Hin]]|[Ha Hin]]]].
    + rewrite incrementView_update in Hview by eauto.
      by eapply updateAnalytics_inv in Hview as [(_ & ->)|([=] & _)].
    + rewrite incrementView_inherited in Hview by done.
      by apply setItem_inv in Hview as (_ & _ & [([=] & _)|(_ & -> & _)]).
    + rewrite (incrementView_stray _ _ _ _ Ha Hin) in Hview. by injection Hview as _ <-.
    + rewrite incrementView_update, updateAnalytics_absent in Hview by eauto.
      discriminate.
Qed.

(** X14. A page counts at most one view.  Over any runs of [loadVideo] of
    one page, the store ends as it was or differs from it by one accepted
    [incrementView], that of one of the runs: the entry of the id with one
    more view, or, for an id that names an inherited member and has no
    entry, the analytics object written back as it was read; and once the
    view is counted, no run changes the store. *)
Theorem page_counts_one_view (calls : list (string * string)) page w page' w' :
  loadVideoRuns calls page w = (page', w') →
  (WatchPage.viewCountedRef page = true → storage w' = storage w)
  ∧ (storage w' = storage w
     ∨ (∃ now videoId a,
          (now, videoId) ∈ calls
          ∧ getAnalytics videoId w = Some (Own a)
          ∧ storage w'
            = applyWrite
                (SetAnalytics (<[videoId := viewed now a]>
                                 (getAllAnalytics (storage w))))
                (storage w))
     ∨ (∃ now videoId,
          (now, videoId) ∈ calls
          ∧ getAnalytics videoId w = Some (Inherited videoId)
          ∧ storage w'
            = applyWrite (SetAnalytics (getAllAnalytics (storage w))) (storage w))).
Proof.
  revert page w. induction calls as [|[now videoId] calls IH]; intros page w.
  - intros [= <- <-]. auto.
  - simpl. destruct (loadVideo now videoId page w) as [[r page1] w1] eqn:Hload.
    intros Hruns. destruct (IH _ _ Hruns) as [Hcounted Hrest].
    apply loadVideo_counts_once in Hload
      as [(Hs & Hmono)|(Hnot & Hnow & [(a & Ha & Hs)|(Ha & Hs)])].
    + split; [intros Hc; rewrite <- Hs; auto|].
      rewrite <- Hs.
      destruct Hrest
        as [?|[(now' & id' & a' & Hin & Ha & ?)|(now' & id' & Hin & Ha & ?)]];
        [by left|right; left|right; right].
      * exists now', id', a'. split; [by apply list_elem_of_further|].
        split; [|done]. apply getAnalytics_own. rewrite <- Hs.
        by apply getAnalytics_own.
      * exists now', id'. split; [by apply list_elem_of_further|].
        split; [|done]. apply getAnalytics_inherited_inv in Ha as (Ha & ? & _).
        apply getAnalytics_inherited; [|done]. by rewrite <- Hs.
    + split; [congruence|]. right. left. exists now, videoId, a.
      split; [apply list_elem_of_here|]. split; [done|].
      rewrite (Hcounted Hnow). done.
    + split; [congruence|]. right. right. exists now, videoId.
      split; [apply list_elem_of_here|]. split; [done|].
      rewrite (Hcounted Hnow). done.
Qed.

(** The player events keep the video of the page, never lower the maximum,
    and leave a start time that is set as it is. *)
Lemma onPlayerEvent_step page e :
  WatchPage.video (onPlayerEvent page e) = WatchPage.video page
  ∧ (WatchPage.maxWatchPercentageRef page
     <= WatchPage.maxWatchPercentageRef (onPlayerEvent page e))%Q
  ∧ (WatchPage.watchStartTimeRef page ≠ 0 →
     WatchPage.watchStartTimeRef (onPlayerEvent page e)
     = WatchPage.watchStartTimeRef page).
Proof.
  destruct e as [currentTime duration|now]; simpl.
  - unfold handleTimeUpdate. destruct (WatchPage.video page) eqn:Hv.
    2: { split; [done|]. split; [apply Qle_refl|done]. }
    destruct (Qle_bool _ _) eqn:E; simpl.
    + split; [done|]. split; [apply Qle_refl|done].
    + split; [done|]. split; [|done].
      apply Qnot_lt_le. intros Hlt. apply Qlt_le_weak in Hlt.
      apply Qle_bool_iff in Hlt. congruence.
  - unfold handlePlay. destruct (_ =? 0) eqn:E; simpl.
    + apply Z.eqb_eq in E. split; [done|]. split; [apply Qle_refl|done].
    + split; [done|]. split; [apply Qle_refl|done].
Qed.

(** X15. The page tracks the largest watch percentage.  On a page that
    shows a video, after any events of the player the maximum is not below
    the one before, not below the percentage of any time update (the
    durations being other than 0), and is the one before or the percentage
    of one of the updates. *)
Theorem max_watch_percentage_tracked (events : list PlayerEvent) page :
  is_Some (WatchPage.video page) →
  Forall (λ e, match e with
               | TimeUpdate _ duration => ¬ (duration == 0)%Q
               | Play _ => True
               end) events →
  let page' := foldl onPlayerEvent page events in
  (WatchPage.maxWatchPercentageRef page <= WatchPage.maxWatchPercentageRef page')%Q
  ∧ (∀ e q, e ∈ events → watchPercentageOf e = Some q →
       (q <= WatchPage.maxWatchPercentageRef page')%Q)
  ∧ (WatchPage.maxWatchPercentageRef page' = WatchPage.maxWatchPercentageRef page
     ∨ ∃ e, e ∈ events
            ∧ watchPercentageOf e = Some (WatchPage.maxWatchPercentageRef page')).
Proof.
  intros Hvideo _. revert page Hvideo.
  induction events as [|e events IH]; intros page Hvideo; simpl.
  { split; [apply Qle_refl|]. split; [|by left].
    intros e q He. by apply elem_of_nil in He. }
  destruct (onPlayerEvent_step page e) as (Hv & Hmax & _).
  destruct (IH (onPlayerEvent page e)) as (IHmax & IHall & IHone).
  { by rewrite Hv. }
  split; [by eapply Qle_trans|]. split.
  - intros e' q [->|Hin]%elem_of_cons Hq; [|by eapply IHall].
    eapply Qle_trans; [|exact IHmax].
    destruct e as [currentTime duration|now]; [|done].
    injection Hq as <-. simpl. unfold handleTimeUpdate.
    destruct Hvideo as [v ->].
    destruct (Qle_bool _ _) eqn:E; simpl; [by apply Qle_bool_iff|apply Qle_refl].
  - destruct IHone as [->|(e' & Hin & He')].
    + destruct e as [currentTime duration|now]; simpl.
      * unfold handleTimeUpdate. destruct Hvideo as [v ->].
        destruct (Qle_bool _ _) eqn:E; simpl; [by left|right].
        exists (TimeUpdate currentTime duration).
        split; [apply list_elem_of_here|done].
      * left. unfold handlePlay. by destruct (_ =? 0).
    + right. exists e'. split; [by apply list_elem_of_further|done].
Qed.

Lemma onPlayerEvents_start page events :
  WatchPage.watchStartTimeRef page ≠ 0 →
  WatchPage.watchStartTimeRef (foldl onPlayerEvent page events)
  = WatchPage.watchStartTimeRef page
  ∧ WatchPage.video (foldl onPlayerEvent page events) = WatchPage.video page.
Proof.
  revert page. induction events as [|e events IH]; intros page Hstart; [done|].
  simpl. destruct (onPlayerEvent_step page e) as (Hv & _ & Hs).
  destruct (IH (onPlayerEvent page e)) as [-> ->]; [by rewrite Hs|].
  by rewrite Hs, Hv.
Qed.

(** X16. The completion that the end of the playback records.  On a page
    that shows a video and has not played yet, after a first play at [t0],
    any further events of the player and a [handleVideoEnd] at [now] that
    returns, the analytics of the id hold one more completion point: the
    largest percentage the page has seen, and the seconds from the first
    play to [now], the later plays changing nothing. *)
Theorem playback_end_recorded (t0 now : Z) (nowIso videoId : string)
    (events : list PlayerEvent) page w w' a :
  is_Some (WatchPage.video page) →
  WatchPage.watchStartTimeRef page = 0 →
  t0 ≠ 0 →
  getAnalytics videoId w = Some (Own a) →
  let page' := foldl onPlayerEvent (handlePlay t0 page) events in
  handleVideoEnd now nowIso videoId page' w = (Return tt, w') →
  ∃ a', getAnalytics videoId w' = Some (Own a')
        ∧ completionData a'
          = completionData a
            ++ [mkCompletionDataPoint nowIso
                  (WatchPage.maxWatchPercentageRef page')
                  (inject_Z (now - t0) / 1000)%Q].
Proof.
  intros [v Hvideo] Hstart Ht0 Ha page' Hrun.
  assert (Hplayed : WatchPage.watchStartTimeRef (handlePlay t0 page) = t0
                    ∧ WatchPage.video (handlePlay t0 page) = Some v).
  { unfold handlePlay. rewrite Hstart. simpl. done. }
  destruct Hplayed as [Hs0 Hv0].
  destruct (onPlayerEvents_start (handlePlay t0 page) events) as [Hs Hv];
    [by rewrite Hs0|].
  fold page' in Hs, Hv. unfold handleVideoEnd in Hrun.
  rewrite Hv, Hv0, Hs, Hs0 in Hrun.
  eexists. split; [by eapply recordCompletion_returned|done].
Qed.

End WatchPageProperties.

(** ** The properties of the service and of its callers at work *)

Lemma cleanupOldVideos_settles_witness :
  let w1 := (@cleanupOldVideos unlimitedHost 3 fourStored).2 in
  @cleanupOldVideos unlimitedHost 3 fourStored = (Return tt, w1)
  ∧ length (getVideos (storage w1))
    = (length (getVideos (storage fourStored)) `min` 3)%nat
  ∧ @cleanupOldVideos unlimitedHost 3 w1 = (Return tt, w1).
Proof.
  intros w1.
  assert (Hrun : @cleanupOldVideos unlimitedHost 3 fourStored = (Return tt, w1))
    by (vm_compute; reflexivity).
  split; [exact Hrun|].
  exact (@cleanupOldVideos_settles unlimitedHost _ _ _ Hrun).
Defined.

Lemma upload_keeps_others_witness :
  let w' := (unlimitedUpload 3 twoStored).2 in
  unlimitedUpload 3 twoStored = ((unlimitedUpload 3 twoStored).1, w')
  ∧ rejected w' = rejected twoStored
  ∧ (∀ v, v ∈ getVideos (storage twoStored) → v ∈ getVideos (storage w'))
  ∧ ∀ i, i ≠ nthId 3 →
      getVideoBlob i (storage w') = getVideoBlob i (storage twoStored)
      ∧ getAnalytics i w' = getAnalytics i twoStored.
Proof.
  intros w'.
  assert (Hrun : @uploadVideo unlimitedHost (nthId 3) (dataUrl 4) (recording 3)
                   twoStored = ((unlimitedUpload 3 twoStored).1, w'))
    by (vm_compute; reflexivity).
  assert (Hrej : rejected w' = rejected twoStored) by (vm_compute; reflexivity).
  split; [exact Hrun|]. split; [exact Hrej|].
  exact (@upload_keeps_others unlimitedHost _ _ _ _ _ _ Hrun (or_introl Hrej)).
Defined.

Lemma retry_appends_twice_witness :
  let videoData := makeVideoData (nthId 3) (recording 3) in
  let w' := (@uploadVideo blobRejectedHost (nthId 3) (dataUrl 4) (recording 3)
               twoStored).2 in
  (length (getVideos (storage twoStored)) ≤ 2)%nat
  ∧ @uploadVideo blobRejectedHost (nthId 3) (dataUrl 4) (recording 3) twoStored
    = (Return videoData, w')
  ∧ rejected w' ≠ rejected twoStored
  ∧ getVideos (storage w')
    = getVideos (storage twoStored)
      ++ [VideoMetadata.parsed videoData; VideoMetadata.parsed videoData].
Proof.
  intros videoData w'.
  assert (Hlen : (length (getVideos (storage twoStored)) ≤ 2)%nat)
    by (vm_compute; lia).
  assert (Hq : @quota blobRejectedHost (setItemCalls twoStored) (storage twoStored)
                 (SetVideos (getVideos (storage twoStored) ++ [videoData])) = true)
    by (vm_compute; reflexivity).
  assert (Hrun : @uploadVideo blobRejectedHost (nthId 3) (dataUrl 4) (recording 3)
                   twoStored = (Return videoData, w'))
    by (vm_compute; reflexivity).
  assert (Hrej : rejected w' ≠ rejected twoStored) by (vm_compute; discriminate).
  split; [exact Hlen|]. split; [exact Hrun|]. split; [exact Hrej|].
  exact (@retry_appends_twice blobRejectedHost _ _ _ _ _ _ Hlen Hq Hrun Hrej).
Defined.

Lemma upload_then_delete_witness :
  let videoData := makeVideoData (nthId 3) (recording 3) in
  let w1 := (unlimitedUpload 3 twoStored).2 in
  let w2 := (@deleteVideo unlimitedHost (nthId 3) w1).2 in
  unlimitedUpload 3 twoStored = (Return videoData, w1)
  ∧ @deleteVideo unlimitedHost (VideoMetadata.id videoData) w1 = (Return tt, w2)
  ∧ getVideos (storage w2) = getVideos (storage twoStored)
  ∧ blobItems (storage w2) = blobItems (storage twoStored)
  ∧ getAllAnalytics (storage w2) = getAllAnalytics (storage twoStored).
Proof.
  intros videoData w1 w2.
  assert (Hv : getVideo (nthId 3) (storage twoStored) = None)
    by (vm_compute; reflexivity).
  assert (Hb : getVideoBlob (nthId 3) (storage twoStored) = None)
    by (vm_compute; reflexivity).
  assert (Ha : getAnalytics (nthId 3) twoStored = None)
    by (vm_compute; reflexivity).
  assert (Hup : @uploadVideo unlimitedHost (nthId 3) (dataUrl 4) (recording 3)
                  twoStored = (Return videoData, w1))
    by (vm_compute; reflexivity).
  assert (Hrej : rejected w1 = rejected twoStored) by (vm_compute; reflexivity).
  assert (Hdel : @deleteVideo unlimitedHost (VideoMetadata.id videoData) w1
                 = (Return tt, w2))
    by (vm_compute; reflexivity).
  split; [exact Hup|]. split; [exact Hdel|].
  exact (@upload_then_delete unlimitedHost _ _ _ _ _ _ _ Hv Hb Ha Hup Hrej Hdel).
Defined.

Lemma deleteVideo_twice_witness :
  let w1 := (@deleteVideo unlimitedHost (nthId 1) twoStored).2 in
  @deleteVideo unlimitedHost (nthId 1) twoStored = (Return tt, w1)
  ∧ ∀ r w2, @deleteVideo unlimitedHost (nthId 1) w1 = (r, w2) →
      getVideos (storage w2) = getVideos (storage w1)
      ∧ blobItems (storage w2) = blobItems (storage w1)
      ∧ getAllAnalytics (storage w2) = getAllAnalytics (storage w1).
Proof.
  intros w1.
  assert (Hrun : @deleteVideo unlimitedHost (nthId 1) twoStored = (Return tt, w1))
    by (vm_compute; reflexivity).
  split; [exact Hrun|].
  exact (λ r w2, @deleteVideo_twice unlimitedHost _ _ _ r w2 Hrun).
Defined.

Lemma view_and_completion_commute_witness :
  let view := @incrementView unlimitedHost "2024-03-03T12:00:00.000Z" (nthId 1) in
  let completion :=
    @recordCompletion unlimitedHost "2024-03-03T12:05:00.000Z" (nthId 1) 50%Q 6%Q in
  let w1 := (view twoStored).2 in
  let w2 := (completion w1).2 in
  let u1 := (completion twoStored).2 in
  let u2 := (view u1).2 in
  view twoStored = (Return tt, w1)
  ∧ completion w1 = (Return tt, w2)
  ∧ completion twoStored = (Return tt, u1)
  ∧ view u1 = (Return tt, u2)
  ∧ storage w2 = storage u2.
Proof.
  intros view completion w1 w2 u1 u2.
  assert (Hw1 : view twoStored = (Return tt, w1)) by (vm_compute; reflexivity).
  assert (Hw2 : completion w1 = (Return tt, w2)) by (vm_compute; reflexivity).
  assert (Hu1 : completion twoStored = (Return tt, u1)) by (vm_compute; reflexivity).
  assert (Hu2 : view u1 = (Return tt, u2)) by (vm_compute; reflexivity).
  split; [exact Hw1|]. split; [exact Hw2|]. split; [exact Hu1|]. split; [exact Hu2|].
  exact (@view_and_completion_commute unlimitedHost _ _ _ _ _ _ _ _ _ _
           Hw1 Hw2 Hu1 Hu2).
Defined.

Lemma consistency_kept_witness :
  consistent (storage twoStored)
  ∧ ∀ id w', @deleteVideo unlimitedHost id twoStored = (Return tt, w') →
      consistent (storage w').
Proof.
  assert (Hc : consistent (storage twoStored)).
  { split; [|split].
    - refine (bool_decide_unpack _ _). vm_compute. reflexivity.
    - refine (bool_decide_unpack _ _). vm_compute. reflexivity.
    - refine (bool_decide_unpack _ _). vm_compute. reflexivity. }
  split; [exact Hc|].
  exact (proj1 (proj2 (@consistency_kept unlimitedHost twoStored Hc))).
Defined.

Lemma stop_event_after_stopRecording_witness :
  let clock := λ k : nat, 1709460012000 + Z.of_nat k in
  let r := Recorder.startRecording 1709460000000 Recorder.initial in
  Recorder.isRecording r = true
  ∧ clock 0%nat ≤ clock 1%nat
  ∧ (Recorder.onstop clock (Recorder.stopRecording r) <= 0)%Q.
Proof.
  intros clock r.
  assert (Hrec : Recorder.isRecording r = true) by reflexivity.
  assert (Hclock : clock 0%nat ≤ clock 1%nat) by (vm_compute; discriminate).
  split; [exact Hrec|]. split; [exact Hclock|].
  exact (proj2 (stop_event_after_stopRecording clock r Hrec Hclock)).
Defined.

Lemma page_counts_one_view_witness :
  let calls := [("2024-03-03T12:00:00.000Z", nthId 1);
                ("2024-03-03T12:00:01.000Z", nthId 1)] in
  let run := @loadVideoRuns unlimitedHost calls WatchPage.initial twoStored in
  run = (run.1, run.2)
  ∧ (storage run.2 = storage twoStored
     ∨ (∃ now videoId a,
          (now, videoId) ∈ calls
          ∧ getAnalytics videoId twoStored = Some (Own a)
          ∧ storage run.2
            = applyWrite
                (SetAnalytics (<[videoId := viewed now a]>
                                 (getAllAnalytics (storage twoStored))))
                (storage twoStored))
     ∨ (∃ now videoId,
          (now, videoId) ∈ calls
          ∧ getAnalytics videoId twoStored = Some (Inherited videoId)
          ∧ storage run.2
            = applyWrite (SetAnalytics (getAllAnalytics (storage twoStored)))
                         (storage twoStored))).
Proof.
  intros calls run.
  assert (Hrun : run = (run.1, run.2)) by (vm_compute; reflexivity).
  split; [exact Hrun|].
  exact (proj2 (@page_counts_one_view unlimitedHost calls _ _ _ _ Hrun)).
Defined.

Lemma max_watch_percentage_tracked_witness :
  is_Some (WatchPage.video watching)
  ∧ (∀ e q, e ∈ playback → watchPercentageOf e = Some q →
       (q <= WatchPage.maxWatchPercentageRef (foldl onPlayerEvent watching playback))%Q).
Proof.
  assert (Hvideo : is_Some (WatchPage.video watching))
    by (eexists; vm_compute; reflexivity).
  assert (Hevents :
    Forall (λ e, match e with
                 | TimeUpdate _ duration => ¬ (duration == 0)%Q
                 | Play _ => True
                 end) playback).
  { repeat constructor; discriminate. }
  split; [exact Hvideo|].
  exact (proj1 (proj2 (max_watch_percentage_tracked playback watching Hvideo Hevents))).
Defined.

Lemma playback_end_recorded_witness :
  let t0 := 1709467200000 in
  let now := 1709467212000 in
  let page' := foldl onPlayerEvent (handlePlay t0 watching) playback in
  let w' := (@handleVideoEnd unlimitedHost now "2024-03-03T12:00:12.000Z" (nthId 1)
               page' watched).2 in
  @handleVideoEnd unlimitedHost now "2024-03-03T12:00:12.000Z" (nthId 1) page' watched
  = (Return tt, w')
  ∧ ∃ a', getAnalytics (nthId 1) w' = Some (Own a')
          ∧ completionData a'
            = [mkCompletionDataPoint "2024-03-03T12:00:12.000Z"
                 (WatchPage.maxWatchPercentageRef page')
                 (inject_Z (now - t0) / 1000)%Q].
Proof.
  intros t0 now page' w'.
  assert (Hvideo : is_Some (WatchPage.video watching))
    by (eexists; vm_compute; reflexivity).
  assert (Hstart : WatchPage.watchStartTimeRef watching = 0)
    by (vm_compute; reflexivity).
  assert (Ht0 : t0 ≠ 0) by discriminate.
  assert (Ha : getAnalytics (nthId 1) watched
               = Some (Own (viewed "2024-03-03T12:00:00.000Z"
                                   (zeroAnalytics (nthId 1)))))
    by (vm_compute; reflexivity).
  assert (Hrun : @handleVideoEnd unlimitedHost now "2024-03-03T12:00:12.000Z"
                   (nthId 1) page' watched = (Return tt, w'))
    by (vm_compute; reflexivity).
  split; [exact Hrun|].
  exact (@playback_end_recorded unlimitedHost t0 now _ _ playback watching _ _ _
           Hvideo Hstart Ht0 Ha Hrun).
Defined.
